(** * tiny-postgres-migrator: a shallow embedding of [migrate.js]

    The repository ships the same migrator twice, once over the [postgres]
    driver and once over [slonik].  The functions embedded here
    ([migrationLocationToMigration], [findMigrationsIn], [hasBeenRun],
    [_applyMigration], [applyMigration], [revertMigration],
    [findAllMigrations], [createMigrationTable], [applyAllMigrations]) have the
    same text in both, up to the driver's spelling of a transaction
    ([sql.begin] / [pool.transaction]) and the pool bookkeeping of the slonik
    variant; the embedding follows the [postgres] variant. *)

From Stdlib Require Import ZArith List String Ascii Bool Lia Permutation Sorted.
From Stdlib Require Import NArith DecimalString DecimalN.
Import ListNotations.
Open Scope string_scope.
Open Scope Z_scope.

(** ** JavaScript values the code manipulates *)

(** A JavaScript Number as far as the code produces one: [parseInt] yields
    [NaN], an integer-valued double or an infinity, and the comparison
    function of [findAllMigrations] subtracts two of these.  [Int z] is the
    double whose value is the integer [z]; the doubles the code computes are
    the images of [to_double].  The sign of a zero is not kept. *)
Inductive number : Type :=
| NaN
| Int (z : Z)
| Infinity (negative : bool).

(** What an exported function hands back to its caller. *)
Inductive value : Type :=
| VUndefined
| VNumber (n : number).

(** [a] without its [e] low bits, rounded to nearest, ties to even. *)
Definition round_half_even (a e : Z) : Z :=
  let q := Z.shiftr a e in
  let r := a - Z.shiftl q e in
  let half := Z.shiftl 1 (e - 1) in
  if (half <? r) || ((r =? half) && Z.odd q) then q + 1 else q.

(** The Number for a mathematical integer: the nearest binary64 value, ties
    to even.  An integer of at most 53 significant bits is its own double;
    above, the bits beyond the 53rd are rounded away, and a magnitude that
    rounds to 2^1024 is an infinity. *)
Definition to_double (z : Z) : number :=
  let a := Z.abs z in
  let e := Z.log2 a - 52 in
  if e <=? 0 then Int z
  else
    let r := Z.shiftl (round_half_even a e) e in
    if Z.shiftl 1 1024 <=? r then Infinity (z <? 0)
    else Int (Z.sgn z * r).

(** [a - b] on Numbers: the exact difference, rounded. *)
Definition number_sub (a b : number) : number :=
  match a, b with
  | Int x, Int y => to_double (x - y)
  | Infinity s, Int _ => Infinity s
  | Int _, Infinity s => Infinity (negb s)
  | Infinity s, Infinity s' => if Bool.eqb s s' then NaN else Infinity s
  | _, _ => NaN
  end.

(** [0 < v] on Numbers. *)
Definition number_pos (v : number) : bool :=
  match v with
  | Int z => 0 <? z
  | Infinity negative => negb negative
  | NaN => false
  end.

(** ** String primitives

    A character of a Rocq string stands for one UTF-16 code unit below 256. *)

Module JsString.

Fixpoint lastIndexOf_from (c : ascii) (s : string) (i acc : Z) : Z :=
  match s with
  | EmptyString => acc
  | String a s' =>
      lastIndexOf_from c s' (i + 1) (if Ascii.eqb a c then i else acc)
  end.

(** [s.lastIndexOf(c)] for a one-character search string: the index of the
    last occurrence, [-1] when there is none. *)
Definition lastIndexOf (c : ascii) (s : string) : Z :=
  lastIndexOf_from c s 0 (-1).

Definition len (s : string) : Z := Z.of_nat (String.length s).

(** The clamping [String.prototype.slice] applies to either index. *)
Definition clamp (n : Z) (i : Z) : Z :=
  if i <? 0 then Z.max (n + i) 0 else Z.min i n.

(** [s.slice(start, end)]. *)
Definition slice (s : string) (start stop : Z) : string :=
  let from := clamp (len s) start in
  let to := clamp (len s) stop in
  if to <=? from then EmptyString
  else String.substring (Z.to_nat from) (Z.to_nat (to - from)) s.

(** [StrWhiteSpaceChar] restricted to code units below 256: TAB, LF, VT, FF,
    CR, SP and NBSP. *)
Definition isWhiteSpace (c : ascii) : bool :=
  let n := nat_of_ascii c in
  (Nat.leb 9 n && Nat.leb n 13) || Nat.eqb n 32 || Nat.eqb n 160.

Fixpoint trimStart (s : string) : string :=
  match s with
  | EmptyString => EmptyString
  | String a s' => if isWhiteSpace a then trimStart s' else s
  end.

(** The value of a digit in the given radix, if it is one. *)
Definition digit (radix : Z) (c : ascii) : option Z :=
  let n := Z.of_nat (nat_of_ascii c) in
  let v := if (48 <=? n) && (n <=? 57) then n - 48
           else if (97 <=? n) && (n <=? 122) then n - 87
           else if (65 <=? n) && (n <=? 90) then n - 55
           else 36 in
  if v <? radix then Some v else None.

(** Reads the longest prefix of radix digits; [None] when it is empty. *)
Fixpoint digits (radix : Z) (s : string) (acc : option Z) : option Z :=
  match s with
  | EmptyString => acc
  | String a s' =>
      match digit radix a with
      | Some d =>
          digits radix s' (Some (radix * match acc with Some v => v | None => 0 end + d))
      | None => acc
      end
  end.

(** Reads one sign off the front. *)
Definition strip_sign (s : string) : Z * string :=
  match s with
  | String c r =>
      if Ascii.eqb c "-" then (-1, r)
      else if Ascii.eqb c "+" then (1, r)
      else (1, s)
  | EmptyString => (1, s)
  end.

(** With no radix given a [0x] or [0X] prefix selects radix 16 and is
    dropped; otherwise the radix is 10. *)
Definition strip_prefix (s : string) : Z * string :=
  match s with
  | String c0 (String c1 r) =>
      if Ascii.eqb c0 "0" && (Ascii.eqb c1 "x" || Ascii.eqb c1 "X")
      then (16, r)
      else (10, s)
  | _ => (10, s)
  end.

(** [parseInt(s)] with the radix left out: leading white space is dropped,
    one sign is read, a [0x]/[0X] prefix switches to radix 16, and the longest
    run of digits gives the mathematical value, which is handed back as a
    Number; with no digit at all the result is [NaN].  (Past twenty
    significant digits the standard lets an engine approximate the value; the
    embedding rounds it correctly, as V8 does.) *)
Definition parseInt (s : string) : number :=
  let '(sign, s2) := strip_sign (trimStart s) in
  let '(radix, s3) := strip_prefix s2 in
  match digits radix s3 None with
  | None => NaN
  | Some v => to_double (sign * v)
  end.

End JsString.

Import JsString.

(** ** [Array.prototype.sort]

    ECMAScript leaves the algorithm to the engine and demands that it is
    stable; the embedding fixes a stable insertion sort.  A comparison that
    yields [NaN] counts as [+0], as the standard prescribes. *)

Module JsArray.
Section Sort.
Context {A : Type}.
Variable comparefn : A -> A -> number.

(** [comparefn(x, y) > 0]: [y] has to come before [x]. *)
Definition after (x y : A) : bool := number_pos (comparefn x y).

Fixpoint insert (x : A) (l : list A) : list A :=
  match l with
  | [] => [x]
  | y :: l' => if after x y then y :: insert x l' else x :: l
  end.

Definition sort (l : list A) : list A := fold_right insert [] l.

End Sort.
End JsArray.

(** ** Discovery *)

Record Migration : Type := mkMigration {
  order : number;
  location : string;
  name : string
}.

Definition migrationLocationToMigration (loc : string) : Migration :=
  let pluginName := slice loc (lastIndexOf "/" loc + 1) (lastIndexOf "." loc) in
  {| order := parseInt pluginName;
     location := loc;
     name := pluginName |}.


(** ** The derivation of a name, in the words of its description

    The second reading of [migrationLocationToMigration]: what the name is,
    told by the parts of the location instead of by indices. *)

Module Described.

Fixpoint contains (c : ascii) (s : string) : bool :=
  match s with
  | EmptyString => false
  | String a s' => Ascii.eqb a c || contains c s'
  end.

(** What follows the last [c]; all of [s] when it has no [c]. *)
Fixpoint after_last (c : ascii) (s : string) : string :=
  match s with
  | EmptyString => EmptyString
  | String a s' =>
      if contains c s' then after_last c s'
      else if Ascii.eqb a c then s' else s
  end.

(** What precedes the last [c]; all of [s] when it has no [c]. *)
Fixpoint before_last (c : ascii) (s : string) : string :=
  match s with
  | EmptyString => EmptyString
  | String a s' =>
      if contains c s' then String a (before_last c s')
      else if Ascii.eqb a c then EmptyString else s
  end.

(** [s] without its final character. *)
Fixpoint drop_last (s : string) : string :=
  match s with
  | EmptyString => EmptyString
  | String a EmptyString => EmptyString
  | String a s' => String a (drop_last s')
  end.

(** The text after the last [/]. *)
Definition basename (loc : string) : string := after_last "/" loc.

(** The name a location yields: the basename up to its last [.]; when only
    the directory part has a [.], nothing; when the location has no [.] at
    all, the basename without its final character. *)
Definition derived_name (loc : string) : string :=
  if contains "." (basename loc) then before_last "." (basename loc)
  else if contains "." loc then EmptyString
  else drop_last (basename loc).

Definition is_decimal (c : ascii) : bool :=
  match digit 10 c with Some _ => true | None => false end.

(** [s] begins, after white space and one optional sign, with a decimal
    digit. *)
Definition numeric_start (s : string) : bool :=
  match trimStart s with
  | EmptyString => false
  | String c r =>
      if Ascii.eqb c "-" || Ascii.eqb c "+" then
        match r with
        | EmptyString => false
        | String c' _ => is_decimal c'
        end
      else is_decimal c
  end.

(** [rest] cannot continue a decimal numeral, nor turn a leading [0] into a
    hexadecimal prefix. *)
Definition stops (rest : string) : bool :=
  match rest with
  | EmptyString => true
  | String c _ =>
      negb (is_decimal c) && negb (Ascii.eqb c "x") && negb (Ascii.eqb c "X")
  end.

(** The decimal numeral of [n], as [createMigration] prints [Date.now()]. *)
Definition decimal (n : N) : string := NilEmpty.string_of_uint (N.to_uint n).

(** A run of decimal digits, leading zeros included, as text, and the number
    it writes. *)
Definition digit_run (d : Decimal.uint) : string := NilEmpty.string_of_uint d.

Definition run_value (d : Decimal.uint) : Z := Z.of_N (N.of_uint d).

(** [rest] begins with a decimal digit. *)
Definition digit_start (rest : string) : bool :=
  match rest with
  | EmptyString => false
  | String c _ => is_decimal c
  end.

End Described.

(** ** The database, the filesystem and the effects of a call *)

Inductive error : Type :=
| UndefinedTable                 (* relation "migrations" does not exist *)
| DuplicateTable                 (* relation "migrations" already exists *)
| UniqueViolation (n : string)   (* the unique constraint on migrations.name *)
| ModuleNotFound (loc : string)  (* require() threw *)
| GlobError (msg : string)       (* glob handed an error to its callback *)
| Thrown (msg : string).         (* a migration unit threw *)

Inductive result (A : Type) : Type :=
| Ok (a : A)
| Err (e : error).
Arguments Ok {A} a.
Arguments Err {A} e.

(** What a call does that an observer can see, in the order it does it. *)
Inductive event : Type :=
| ExistsSync (loc : string)      (* fs.existsSync *)
| Glob (pattern : string)        (* glob *)
| Require (loc : string)         (* require(migration.location) *)
| Log (msg : string)             (* console.log *)
| Select (n : string)            (* select count from migrations where name = n *)
| SelectExists                   (* the pg_tables probe *)
| CreateTable                    (* create table migrations *)
| Begin
| Commit
| Rollback
| Up (loc : string)              (* migration_code.up(sql) *)
| Down (loc : string)            (* migration_code.down(sql) *)
| Insert (n : string)            (* insert into migrations (name) values (n) *)
| Delete (n : string).           (* delete from migrations where name = n *)

(** Events that reach the database. *)
Definition db_event (e : event) : bool :=
  match e with
  | ExistsSync _ | Glob _ | Require _ | Log _ => false
  | _ => true
  end.

Definition is_begin (e : event) : bool :=
  match e with Begin => true | _ => false end.
Definition is_commit (e : event) : bool :=
  match e with Commit => true | _ => false end.
Definition is_down (e : event) : bool :=
  match e with Down _ => true | _ => false end.
Definition is_write (e : event) : bool :=
  match e with Insert _ | Delete _ | CreateTable => true | _ => false end.

Section Migrator.

(** Everything in the database apart from the [migrations] table. *)
Context {Sch : Type}.

(** The [migrations] table is the list of its rows' names ([None] while the
    table does not exist); the [timestamp] column is never read. *)
Record DB : Type := mkDB {
  migrations : option (list string);
  schema : Sch
}.

(** A migration module: [up] and [down] run arbitrary statements on the
    handle they are given, and may throw after some of them took effect. *)
Record Unit : Type := mkUnit {
  up : DB -> result unit * DB;
  down : DB -> result unit * DB
}.

(** The filesystem and module loader a call runs against. *)
Record Env : Type := mkEnv {
  existsSync : string -> bool;
  glob : string -> result (list string);
  require : string -> result Unit
}.

(** An effectful computation: from the database it starts in to its outcome,
    the database it leaves and the events it caused. *)
Definition M (A : Type) : Type := DB -> result A * DB * list event.

Definition ret {A} (a : A) : M A := fun db => (Ok a, db, []).

Definition throw {A} (e : error) : M A := fun db => (Err e, db, []).

Definition bind {A B} (m : M A) (f : A -> M B) : M B :=
  fun db =>
    let '(r, db1, t1) := m db in
    match r with
    | Err e => (Err e, db1, t1)
    | Ok a => let '(r2, db2, t2) := f a db1 in (r2, db2, (t1 ++ t2)%list)
    end.

Definition emit (e : event) : M unit := fun db => (Ok tt, db, [e]).

Definition log (msg : string) : M unit := emit (Log msg).

End Migrator.

Arguments DB Sch : clear implicits.
Arguments Unit Sch : clear implicits.
Arguments Env Sch : clear implicits.
Arguments M Sch A : clear implicits.

Declare Scope migrate_scope.
Delimit Scope migrate_scope with migrate.
Notation "x <- c ;; k" := (bind c (fun x => k))
  (at level 100, c at next level, right associativity) : migrate_scope.
Notation "c ;;; k" := (bind c (fun _ => k))
  (at level 100, right associativity) : migrate_scope.
Open Scope migrate_scope.

(** The comparator [findAllMigrations] sorts with: [(a, b) => a.order - b.order]. *)
Definition comparefn (a b : Migration) : number :=
  number_sub (order a) (order b).

(** ** Statements on the [migrations] table *)

Module Sql.
Section Statements.
Context {Sch : Type}.

Definition count (n : string) (rows : list string) : nat :=
  List.length (filter (String.eqb n) rows).

(** [select count from migrations where name = n]. *)
Definition select_count (n : string) : M Sch nat :=
  fun db =>
    match migrations db with
    | None => (Err UndefinedTable, db, [Select n])
    | Some rows => (Ok (count n rows), db, [Select n])
    end.

(** [insert into migrations (name) values (n)]; [name] is unique. *)
Definition insert (n : string) : M Sch unit :=
  fun db =>
    match migrations db with
    | None => (Err UndefinedTable, db, [Insert n])
    | Some rows =>
        if existsb (String.eqb n) rows
        then (Err (UniqueViolation n), db, [Insert n])
        else (Ok tt, mkDB (Some (rows ++ [n])%list) (schema db), [Insert n])
    end.

(** [delete from migrations where name = n]. *)
Definition delete (n : string) : M Sch unit :=
  fun db =>
    match migrations db with
    | None => (Err UndefinedTable, db, [Delete n])
    | Some rows =>
        (Ok tt,
         mkDB (Some (filter (fun r => negb (String.eqb n r)) rows)) (schema db),
         [Delete n])
    end.

(** The probe of [pg_catalog.pg_tables] for a public table [migrations]. *)
Definition select_exists : M Sch bool :=
  fun db =>
    (Ok (match migrations db with Some _ => true | None => false end),
     db, [SelectExists]).

(** [create table migrations (...)]. *)
Definition create_table : M Sch unit :=
  fun db =>
    match migrations db with
    | Some _ => (Err DuplicateTable, db, [CreateTable])
    | None => (Ok tt, mkDB (Some []) (schema db), [CreateTable])
    end.

(** [sql.begin(body)]: the body runs inside a transaction that commits when
    the body returns and rolls back, and throws again, when it throws. *)
Definition begin {A} (body : M Sch A) : M Sch A :=
  fun db =>
    let '(r, db', t) := body db in
    match r with
    | Ok a => (Ok a, db', (Begin :: t ++ [Commit])%list)
    | Err e => (Err e, db, (Begin :: t ++ [Rollback])%list)
    end.

End Statements.
End Sql.

(** ** The migrator *)

Section Migrate.
Context {Sch : Type}.
Variable env : Env Sch.

Definition findMigrationsIn (dir_prefix : string) : M Sch (list Migration) :=
  emit (Glob (dir_prefix ++ "/*.js")) ;;;
  match glob env (dir_prefix ++ "/*.js") with
  | Err er => throw er
  | Ok files => ret (map migrationLocationToMigration files)
  end.

Definition hasBeenRun (migration : Migration) : M Sch bool :=
  count <- Sql.select_count (name migration) ;;
  ret (negb (Nat.eqb count 0)).

(** [require(loc)], then the call of one of the module's operations. *)
Definition load (loc : string) : M Sch (Unit Sch) :=
  emit (Require loc) ;;;
  match require env loc with
  | Err e => throw e
  | Ok code => ret code
  end.

Definition call (ev : event) (f : DB Sch -> result unit * DB Sch) : M Sch unit :=
  fun db => let '(r, db') := f db in (r, db', [ev]).

Definition _applyMigration (migration : Migration) : M Sch bool :=
  Sql.begin (
    log ("Running migration " ++ name migration) ;;;
    migration_code <- load (location migration) ;;
    call (Up (location migration)) (up migration_code) ;;;
    Sql.insert (name migration)) ;;;
  ret true.

Definition applyMigration (migration_loc : string) : M Sch value :=
  _ <- emit (ExistsSync migration_loc) ;;
  if negb (existsSync env migration_loc) then
    log ("Run aborted. " ++ migration_loc ++ " not found") ;;;
    ret VUndefined
  else
    let m := migrationLocationToMigration migration_loc in
    run <- hasBeenRun m ;;
    if negb run then
      _applyMigration m ;;;
      ret VUndefined
    else
      log ("Run aborted. " ++ migration_loc ++ " has already been applied") ;;;
      ret VUndefined.

Definition revertMigration (migration_loc : string) : M Sch value :=
  _ <- emit (ExistsSync migration_loc) ;;
  if negb (existsSync env migration_loc) then
    log ("Revert aborted. " ++ migration_loc ++ " not found") ;;;
    ret VUndefined
  else
    let m := migrationLocationToMigration migration_loc in
    run <- hasBeenRun m ;;
    if negb run then
      log ("Revert aborted because no migration with name=" ++ name m
           ++ " found in migrations table") ;;;
      ret VUndefined
    else
      Sql.begin (
        log ("Reverting migration " ++ location m) ;;;
        migration_code <- load (location m) ;;
        call (Down (location m)) (down migration_code) ;;;
        Sql.delete (name m)) ;;;
      ret VUndefined.

(** The [for (const p of paths)] loop of [findAllMigrations]. *)
Fixpoint collect (paths : list string) (migrations : list Migration)
  : M Sch (list Migration) :=
  match paths with
  | [] => ret migrations
  | p :: rest =>
      found <- findMigrationsIn p ;;
      collect rest (migrations ++ found)%list
  end.

Definition findAllMigrations (paths : list string) : M Sch (list Migration) :=
  migrations <- collect paths [] ;;
  ret (JsArray.sort comparefn migrations).

Definition createMigrationTable : M Sch unit :=
  exists_ <- Sql.select_exists ;;
  if negb exists_ then Sql.create_table else ret tt.

(** The [for (const m of migrations)] loop of [applyAllMigrations]. *)
Fixpoint apply_loop (migrations : list Migration) (num_run : nat) : M Sch nat :=
  match migrations with
  | [] => ret num_run
  | m :: rest =>
      run <- hasBeenRun m ;;
      if negb run then
        applied <- _applyMigration m ;;
        apply_loop rest (if applied : bool then Datatypes.S num_run else num_run)
      else
        apply_loop rest num_run
  end.

Definition applied_message (num_run : nat) : string :=
  "Applied " ++ NilEmpty.string_of_uint (Nat.to_uint num_run) ++ " migrations".

Definition applyAllMigrations (paths : list string) : M Sch value :=
  createMigrationTable ;;;
  migrations <- findAllMigrations paths ;;
  num_run <- apply_loop migrations 0%nat ;;
  (if negb (Nat.eqb num_run 0)
   then log (applied_message num_run)
   else log "No new migrations to apply") ;;;
  ret VUndefined.

End Migrate.

(** ** Reading the outcome of a call *)

Section Observations.
Context {Sch A : Type}.

Definition outcome (x : result A * DB Sch * list event) : result A := fst (fst x).
Definition final (x : result A * DB Sch * list event) : DB Sch := snd (fst x).
Definition trace (x : result A * DB Sch * list event) : list event := snd x.

Definition returns (x : result A * DB Sch * list event) : bool :=
  match outcome x with Ok _ => true | Err _ => false end.

End Observations.

(** [recorded db n]: the [migrations] table exists and has a row named [n]. *)
Definition recorded {Sch} (db : DB Sch) (n : string) : bool :=
  match migrations db with
  | Some rows => existsb (String.eqb n) rows
  | None => false
  end.

(** No event of the trace satisfies [p]. *)
Definition never (p : event -> bool) (t : list event) : bool :=
  forallb (fun e => negb (p e)) t.

(** A migration unit leaves the [migrations] table alone. *)
Definition keeps_ledger {Sch} (f : DB Sch -> result unit * DB Sch) : Prop :=
  forall db, migrations (snd (f db)) = migrations db.

Definition units_keep_ledger {Sch} (env : Env Sch) : Prop :=
  forall loc code, require env loc = Ok code ->
    keeps_ledger (up code) /\ keeps_ledger (down code).

(** ** A small installation to run the code on

    Two roots, [/p1] with units 10 and 30 and [/p2] with unit 20; the schema is
    the list of tables the units created. *)

Module Example.

Definition creates (tbl : string) : Unit (list string) :=
  {| up := fun db => (Ok tt, mkDB (migrations db) (tbl :: schema db));
     down := fun db =>
       (Ok tt, mkDB (migrations db) (List.remove string_dec tbl (schema db))) |}.

(** Creates its table and then throws. *)
Definition breaks (tbl : string) : Unit (list string) :=
  {| up := fun db => (Err (Thrown "boom"), mkDB (migrations db) (tbl :: schema db));
     down := fun db => (Err (Thrown "boom"), db) |}.

Definition files1 : list string :=
  ["/p1/10-create_users.js"; "/p1/30-add_index.js"].
Definition files2 : list string := ["/p2/20-add_email.js"].
(** A third root, whose only file carries no order key. *)
Definition files3 : list string := ["/p3/add_index.js"].

Definition fs (unit20 : Unit (list string)) : Env (list string) :=
  {| existsSync := fun loc => existsb (String.eqb loc) (files1 ++ files2)%list;
     glob := fun pattern =>
       if String.eqb pattern "/p1/*.js" then Ok files1
       else if String.eqb pattern "/p2/*.js" then Ok files2
       else if String.eqb pattern "/p3/*.js" then Ok files3
       else Ok [];
     require := fun loc =>
       if String.eqb loc "/p1/10-create_users.js" then Ok (creates "users")
       else if String.eqb loc "/p1/30-add_index.js" then Ok (creates "users_idx")
       else if String.eqb loc "/p2/20-add_email.js" then Ok unit20
       else Err (ModuleNotFound loc) |}.

(** Unit 20 is broken in [broken] and repaired in [fixed]. *)
Definition broken : Env (list string) := fs (breaks "email").
Definition fixed : Env (list string) := fs (creates "email").

Definition empty : DB (list string) := mkDB None [].
Definition fresh : DB (list string) := mkDB (Some []) [].
Definition after10 : DB (list string) := mkDB (Some ["10-create_users"]) ["users"].

Definition m10 : Migration := migrationLocationToMigration "/p1/10-create_users.js".
Definition m20 : Migration := migrationLocationToMigration "/p2/20-add_email.js".
Definition m30 : Migration := migrationLocationToMigration "/p1/30-add_index.js".

End Example.

(** ** The transaction of [_applyMigration], step by step *)

Section Body.
Context {Sch : Type}.
Implicit Types (db : DB Sch) (env : Env Sch) (m : Migration).

(** The body [_applyMigration] hands to [sql.begin]. *)
Definition apply_body env m : M Sch unit :=
  log ("Running migration " ++ name m) ;;;
  migration_code <- load env (location m) ;;
  call (Up (location m)) (up migration_code) ;;;
  Sql.insert (name m).

(** The three ways the body can go wrong, and the one way it goes right. *)
Inductive body_run env m db : result unit -> DB Sch -> list event -> Prop :=
| run_no_module e :
    require env (location m) = Err e ->
    body_run env m db (Err e) db
      [Log ("Running migration " ++ name m); Require (location m)]
| run_up_throws code e dbu :
    require env (location m) = Ok code ->
    up code db = (Err e, dbu) ->
    body_run env m db (Err e) dbu
      [Log ("Running migration " ++ name m); Require (location m);
       Up (location m)]
| run_insert_fails code e dbu :
    require env (location m) = Ok code ->
    up code db = (Ok tt, dbu) ->
    Sql.insert (name m) dbu = (Err e, dbu, [Insert (name m)]) ->
    body_run env m db (Err e) dbu
      [Log ("Running migration " ++ name m); Require (location m);
       Up (location m); Insert (name m)]
| run_done code dbu rows :
    require env (location m) = Ok code ->
    up code db = (Ok tt, dbu) ->
    migrations dbu = Some rows ->
    existsb (String.eqb (name m)) rows = false ->
    body_run env m db (Ok tt) (mkDB (Some (rows ++ [name m])%list) (schema dbu))
      [Log ("Running migration " ++ name m); Require (location m);
       Up (location m); Insert (name m)].

End Body.

Definition is_boundary (e : event) : bool :=
  match e with Begin | Commit | Rollback => true | _ => false end.

(** ** Reading a trace *)

(** The modules loaded, in order.  [_applyMigration] loads its migration's
    module first thing, so inside [applyAllMigrations] this is the sequence of
    migrations it was invoked on. *)
Fixpoint required (t : list event) : list string :=
  match t with
  | [] => []
  | Require loc :: t' => loc :: required t'
  | _ :: t' => required t'
  end.

(** The units whose [up] was called, in order. *)
Fixpoint ups (t : list event) : list string :=
  match t with
  | [] => []
  | Up loc :: t' => loc :: ups t'
  | _ :: t' => ups t'
  end.

(** How many transactions committed. *)
Definition commits (t : list event) : nat := List.length (filter is_commit t).

(** The events of a successful [_applyMigration]. *)
Definition applied_trace (m : Migration) : list event :=
  [Begin; Log ("Running migration " ++ name m); Require (location m);
   Up (location m); Insert (name m); Commit].

(** Events that only look: globbing, the guard query, the table probe and
    logging.  Nothing is loaded, invoked or written and no transaction is
    opened by them. *)
Definition looks (e : event) : bool :=
  match e with
  | Glob _ | Select _ | SelectExists | Log _ => true
  | _ => false
  end.

(** The two lines with which [applyAllMigrations] reports its count. *)
Definition is_report (e : event) : bool :=
  match e with
  | Log msg =>
      String.eqb msg "No new migrations to apply" || String.prefix "Applied " msg
  | _ => false
  end.

(** The line [applyAllMigrations] ends on. *)
Definition report (num_run : nat) : string :=
  if negb (Nat.eqb num_run 0) then applied_message num_run
  else "No new migrations to apply".

Definition is_glob (e : event) : bool :=
  match e with Glob _ => true | _ => false end.

(** [grows db db']: every row of the ledger of [db] is still there in [db'],
    in place, and rows were only added behind them. *)
Definition grows {Sch} (db db' : DB Sch) : Prop :=
  match migrations db with
  | None => True
  | Some rows => exists added, migrations db' = Some (rows ++ added)%list
  end.

(** [l] with some elements left out. *)
Inductive subseq {A : Type} : list A -> list A -> Prop :=
| subseq_nil : subseq [] []
| subseq_skip x l1 l2 : subseq l1 l2 -> subseq l1 (x :: l2)
| subseq_keep x l1 l2 : subseq l1 l2 -> subseq (x :: l1) (x :: l2).

(** Order keys that are integers, the first below the second. *)
Definition order_lt (a b : Migration) : Prop :=
  match order a, order b with
  | Int x, Int y => x < y
  | _, _ => False
  end.

Definition is_int (n : number) : bool :=
  match n with Int _ => true | _ => false end.

(** ** The runs of the batch loop

    [loop_run env ms n db r db' t]: the loop of [applyAllMigrations] over [ms],
    entered with [num_run = n] in database [db], ends with outcome [r] in
    database [db'] after the events [t]. *)

Section Runs.
Context {Sch : Type}.
Variable env : Env Sch.

Inductive loop_run :
  list Migration -> nat -> DB Sch -> result nat -> DB Sch -> list event -> Prop :=
| loop_done n db :
    loop_run [] n db (Ok n) db []
| loop_no_table m rest n db :
    migrations db = None ->
    loop_run (m :: rest) n db (Err UndefinedTable) db [Select (name m)]
| loop_skip m rest n db r db' t :
    migrations db <> None ->
    recorded db (name m) = true ->
    loop_run rest n db r db' t ->
    loop_run (m :: rest) n db r db' (Select (name m) :: t)
| loop_fail m rest n db e t :
    migrations db <> None ->
    recorded db (name m) = false ->
    _applyMigration env m db = (Err e, db, t) ->
    commits t = 0%nat ->
    required t = [location m] ->
    ups t = [] \/ ups t = [location m] ->
    loop_run (m :: rest) n db (Err e) db (Select (name m) :: t)
| loop_apply m rest n db db1 r db' t :
    migrations db <> None ->
    recorded db (name m) = false ->
    _applyMigration env m db = (Ok true, db1, applied_trace m) ->
    recorded db1 (name m) = true ->
    loop_run rest (Datatypes.S n) db1 r db' t ->
    loop_run (m :: rest) n db r db' (Select (name m) :: applied_trace m ++ t)%list.

End Runs.

(** ** Listing *)

Section Listing.
Context {Sch : Type}.
Variable env : Env Sch.

(** The line [listMigrations] prints for one migration. *)
Definition list_line (run : bool) (m : Migration) : string :=
  (if run then "Y" else "N") ++ "               " ++ location m.

(** The [for (m of migrations)] loop of [listMigrations]. *)
Fixpoint list_loop (migrations : list Migration) : M Sch unit :=
  match migrations with
  | [] => ret tt
  | m :: rest =>
      run <- hasBeenRun m ;;
      log (list_line run m) ;;;
      list_loop rest
  end.

Definition listMigrations (migration_paths : list string) : M Sch value :=
  createMigrationTable ;;;
  migrations <- findAllMigrations env migration_paths ;;
  log "Applied Y/N     Path to migration" ;;;
  list_loop migrations ;;;
  log "" ;;;
  ret VUndefined.

End Listing.

(** ** Scaffolding and the command line *)

Module Cli.

(** What [cmd] and [createMigration] do besides what the migrator does. *)
Inductive cli_event : Type :=
| Core (e : event)
| WriteFile (filename content : string)   (* fs.writeFileSync *)
| End_.                                   (* sql.end() *)

(** The clock and the writable filesystem: [Date.now()], taken after 1970,
    and [fs.writeFileSync], which throws or writes.  [Date.now()] is a time
    value, and time values end at 8.64e15 milliseconds. *)
Record Host : Type := mkHost {
  now : N;
  now_time_value : (now <=? 8640000000000000)%N = true;
  writeFileSync : string -> string -> option error
}.

Definition nl : string := String (ascii_of_nat 10) EmptyString.

(** The stub [createMigration] writes. *)
Definition stub : string :=
  "exports.up = async function(sql) {" ++ nl ++
  "  await sql`" ++ nl ++
  "  `;" ++ nl ++
  "};" ++ nl ++
  nl ++
  "exports.down = async function(sql) {" ++ nl ++
  "  await sql`" ++ nl ++
  "  `;" ++ nl ++
  "};".

(** [`${directory}/${timestamp}-${name}.js`]. *)
Definition filename_of (directory : string) (timestamp : N) (name : string) : string :=
  directory ++ "/" ++ Described.decimal timestamp ++ "-" ++ name ++ ".js".

Definition createMigration (host : Host) (name directory : string)
  : result value * list cli_event :=
  let timestamp := now host in
  let filename := filename_of directory timestamp name in
  match writeFileSync host filename stub with
  | Some e => (Err e, [WriteFile filename stub])
  | None =>
      (Ok VUndefined,
       [WriteFile filename stub; Core (Log ("Migration written to " ++ filename))])
  end.

Definition usage (cmd_name : string) : string :=
  "Usage:" ++ nl ++
  cmd_name ++ " all                               # Apply all pending migrations" ++ nl ++
  cmd_name ++ " list                              # Show all migrations, oldest to newest" ++ nl ++
  cmd_name ++ " apply  ./path/to/the/migration.js # Apply one migration" ++ nl ++
  cmd_name ++ " revert ./path/to/the/migration.js # Revert one migration" ++ nl ++
  cmd_name ++ " create <NAME> <DIRECTORY>         # Create a migration in the given directory" ++ nl.

(** [args[i] == word]. *)
Definition arg_is (args : list string) (i : nat) (word : string) : bool :=
  match nth_error args i with
  | Some a => String.eqb a word
  | None => false
  end.

(** [args[i]] when it is truthy: present and not the empty string. *)
Definition arg (args : list string) (i : nat) : option string :=
  match nth_error args i with
  | Some (String c r) => Some (String c r)
  | _ => None
  end.

Section Cmd.
Context {Sch : Type}.
Variables (env : Env Sch) (host : Host).

Definition core {A} (x : result A * DB Sch * list event)
  : result A * DB Sch * list cli_event :=
  let '(r, db, t) := x in (r, db, map Core t).

Definition say (msg : string) (db : DB Sch) : result value * DB Sch * list cli_event :=
  (Ok VUndefined, db, [Core (Log msg)]).

(** The command [cmd] picks, before [sql.end()]. *)
Definition dispatch (cmd_name : string) (migration_paths args : list string)
  (db : DB Sch) : result value * DB Sch * list cli_event :=
  if arg_is args 0 "all" then
    core (applyAllMigrations env migration_paths db)
  else if arg_is args 0 "list" then
    core (listMigrations env migration_paths db)
  else if arg_is args 0 "revert" then
    match arg args 1 with
    | Some migration_loc => core (revertMigration env migration_loc db)
    | None => say "Path to migration file expected as argument to revert" db
    end
  else if arg_is args 0 "apply" then
    match arg args 1 with
    | Some migration_loc => core (applyMigration env migration_loc db)
    | None => say "Path to migration file expected as argument to apply" db
    end
  else if arg_is args 0 "create" then
    match arg args 1, arg args 2 with
    | Some name, Some directory =>
        let '(r, t) := createMigration host name directory in (r, db, t)
    | _, _ => say "Expected arguments <name> <directory>" db
    end
  else
    say (usage cmd_name) db.

(** [cmd]: the command, then [sql.end()] unless the command threw. *)
Definition cmd (cmd_name : string) (migration_paths args : list string)
  (db : DB Sch) : result value * DB Sch * list cli_event :=
  let '(r, db', t) := dispatch cmd_name migration_paths args db in
  match r with
  | Ok _ => (Ok VUndefined, db', (t ++ [End_])%list)
  | Err e => (Err e, db', t)
  end.

End Cmd.

(** How often the connection was ended. *)
Definition ends (t : list cli_event) : nat :=
  List.length (filter (fun e => match e with End_ => true | _ => false end) t).

(** The migrator's own events among those of a command. *)
Fixpoint core_events (t : list cli_event) : list event :=
  match t with
  | [] => []
  | Core e :: t' => e :: core_events t'
  | _ :: t' => core_events t'
  end.

(** The files written. *)
Fixpoint written (t : list cli_event) : list string :=
  match t with
  | [] => []
  | WriteFile f _ :: t' => f :: written t'
  | _ :: t' => written t'
  end.

(** Reading the outcome of a command. *)
Definition outcome {Sch A} (x : result A * DB Sch * list cli_event) : result A :=
  fst (fst x).
Definition final {Sch A} (x : result A * DB Sch * list cli_event) : DB Sch :=
  snd (fst x).
Definition trace {Sch A} (x : result A * DB Sch * list cli_event) : list cli_event :=
  snd x.

End Cli.

(** ** The slonik variant

    The second copy of the module talks to a pool it creates itself, by
    [getDb], and ends with [pool.end()].  [findMigrationsIn], [hasBeenRun],
    [_applyMigration], [findAllMigrations] and the loop of
    [applyAllMigrations] read as in the first copy and are shared. *)

Declare Scope slonik_scope.

Module Slonik.

Inductive pool_event : Type :=
| Stmt (e : event)
| CreatePool                 (* getDb: s.createPool(connection_string) *)
| EndPool                    (* pool.end() *)
| CreateTableIfNotExists.    (* create table if not exists migrations *)

Section Pool.
Context {Sch : Type}.

Definition MP (A : Type) : Type := DB Sch -> result A * DB Sch * list pool_event.

Definition retP {A} (a : A) : MP A := fun db => (Ok a, db, []).

Definition bindP {A B} (m : MP A) (f : A -> MP B) : MP B :=
  fun db =>
    let '(r, db1, t1) := m db in
    match r with
    | Err e => (Err e, db1, t1)
    | Ok a => let '(r2, db2, t2) := f a db1 in (r2, db2, (t1 ++ t2)%list)
    end.

Definition emitP (e : pool_event) : MP unit := fun db => (Ok tt, db, [e]).

(** A computation of the shared code, run on the pool. *)
Definition on_pool {A} (m : M Sch A) : MP A :=
  fun db => let '(r, db', t) := m db in (r, db', map Stmt t).

End Pool.

Notation "x <- c ;; k" := (bindP c (fun x => k))
  (at level 100, c at next level, right associativity) : slonik_scope.
Notation "c ;;; k" := (bindP c (fun _ => k))
  (at level 100, right associativity) : slonik_scope.
Local Open Scope slonik_scope.

Section Variant.
Context {Sch : Type}.
Variable env : Env Sch.

Definition getDb : MP unit := emitP (Sch := Sch) CreatePool.

Definition createMigrationTable : MP (Sch := Sch) unit :=
  fun db =>
    (Ok tt,
     match migrations db with
     | Some _ => db
     | None => mkDB (Some []) (schema db)
     end,
     [CreateTableIfNotExists]).

Definition applyMigration (migration_loc : string) : MP (Sch := Sch) value :=
  _ <- emitP (Stmt (ExistsSync migration_loc)) ;;
  if negb (existsSync env migration_loc) then
    on_pool (log ("Run aborted. " ++ migration_loc ++ " not found")) ;;;
    retP VUndefined
  else
    let m := migrationLocationToMigration migration_loc in
    getDb ;;;
    run <- on_pool (hasBeenRun m) ;;
    (if negb run then
       on_pool (_applyMigration env m) ;;;
       retP tt
     else
       on_pool (log ("Run aborted. " ++ migration_loc ++ " has already been applied"))) ;;;
    emitP EndPool ;;;
    retP VUndefined.

Definition revertMigration (migration_loc : string) : MP (Sch := Sch) value :=
  _ <- emitP (Stmt (ExistsSync migration_loc)) ;;
  if negb (existsSync env migration_loc) then
    on_pool (log ("Revert aborted. " ++ migration_loc ++ " not found")) ;;;
    retP VUndefined
  else
    let m := migrationLocationToMigration migration_loc in
    getDb ;;;
    run <- on_pool (hasBeenRun m) ;;
    if negb run then
      on_pool (log ("Revert aborted because no migration with name=" ++ name m
                    ++ " found in migrations table")) ;;;
      emitP EndPool ;;;
      retP VUndefined
    else
      on_pool (Sql.begin (
        log ("Reverting migration " ++ location m) ;;;
        migration_code <- load env (location m) ;;
        call (Down (location m)) (down migration_code) ;;;
        Sql.delete (name m))%migrate) ;;;
      emitP EndPool ;;;
      retP VUndefined.

Definition applyAllMigrations (paths : list string) : MP (Sch := Sch) value :=
  getDb ;;;
  createMigrationTable ;;;
  migrations <- on_pool (findAllMigrations env paths) ;;
  num_run <- on_pool (apply_loop env migrations 0%nat) ;;
  (if negb (Nat.eqb num_run 0)
   then on_pool (log (applied_message num_run))
   else on_pool (log "No new migrations to apply")) ;;;
  emitP EndPool ;;;
  retP VUndefined.

End Variant.

(** The statements among the events of the pool. *)
Fixpoint statements (t : list pool_event) : list event :=
  match t with
  | [] => []
  | Stmt e :: t' => e :: statements t'
  | _ :: t' => statements t'
  end.

Definition pools_created (t : list pool_event) : nat :=
  List.length (filter (fun e => match e with CreatePool => true | _ => false end) t).

Definition pools_ended (t : list pool_event) : nat :=
  List.length (filter (fun e => match e with EndPool => true | _ => false end) t).

(** Reading the outcome of a call on the pool. *)
Definition outcome {Sch A} (x : result A * DB Sch * list pool_event) : result A :=
  fst (fst x).
Definition final {Sch A} (x : result A * DB Sch * list pool_event) : DB Sch :=
  snd (fst x).
Definition trace {Sch A} (x : result A * DB Sch * list pool_event) : list pool_event :=
  snd x.

End Slonik.

(** The table bootstrap of either variant. *)
Definition is_bootstrap (e : event) : bool :=
  match e with SelectExists | CreateTable => true | _ => false end.

(** The rows of the ledger, none while the table does not exist. *)
Definition rows_of {Sch} (db : DB Sch) : list string :=
  match migrations db with Some rows => rows | None => [] end.

(** Order keys that are integers, the first not above the second. *)
Definition order_le (a b : Migration) : Prop :=
  match order a, order b with
  | Int x, Int y => x <= y
  | _, _ => False
  end.

(** The pattern [findMigrationsIn] globs for a root. *)
Definition pattern_of (p : string) : event := Glob (p ++ "/*.js").

(** The two events [listMigrations] spends on a migration. *)
Definition listed {Sch} (db : DB Sch) (m : Migration) : list event :=
  [Select (name m); Log (list_line (recorded db (name m)) m)].

(** What [pool.end()] adds behind a call that returned. *)
Definition closing {A} (r : result A) : list Slonik.pool_event :=
  match r with Ok _ => [Slonik.EndPool] | Err _ => [] end.

(** A second installation: the clock of [1700000000000] and a disk that
    takes every file. *)
Module Desk.

Definition host : Cli.Host :=
  {| Cli.now := 1700000000000%N;
     Cli.now_time_value := eq_refl;
     Cli.writeFileSync := fun _ _ => None |}.

(** A disk that refuses every file. *)
Definition full : Cli.Host :=
  {| Cli.now := 1700000000000%N;
     Cli.now_time_value := eq_refl;
     Cli.writeFileSync := fun _ _ => Some (Thrown "ENOSPC") |}.

Definition applied : DB (list string) :=
  mkDB (Some ["10-create_users"; "20-add_email"; "30-add_index"])
    ["users_idx"; "email"; "users"].

(** An installation of which only the root [/p1] can be read. *)
Definition locked : Env (list string) :=
  {| existsSync := existsSync Example.fixed;
     glob := fun pattern =>
       if String.eqb pattern "/p1/*.js" then Ok Example.files1
       else Err (GlobError pattern);
     require := require Example.fixed |}.

(** Two roots whose files carry order keys past 2^53: the numerals differ,
    the Numbers [parseInt] makes of them do not. *)
Definition late : Env (list string) :=
  {| existsSync := fun _ => true;
     glob := fun pattern =>
       if String.eqb pattern "/a/*.js" then Ok ["/a/9007199254740993-second.js"]
       else if String.eqb pattern "/b/*.js" then Ok ["/b/9007199254740992-first.js"]
       else Ok [];
     require := fun loc => Ok (Example.creates loc) |}.

End Desk.

(** ** The transaction of [revertMigration] *)

Section Reverting.
Context {Sch : Type}.
Variable env : Env Sch.

(** What [revertMigration] hands to [sql.begin]. *)
Definition revert_body (m : Migration) : M Sch unit :=
  log ("Reverting migration " ++ location m) ;;;
  migration_code <- load env (location m) ;;
  call (Down (location m)) (down migration_code) ;;;
  Sql.delete (name m).

(** The events of a successful revert transaction. *)
Definition reverted_trace (m : Migration) : list event :=
  [Begin; Log ("Reverting migration " ++ location m); Require (location m);
   Down (location m); Delete (name m); Commit].

End Reverting.

(** The rows that are not named [n]. *)
Definition without (n : string) (rows : list string) : list string :=
  filter (fun r => negb (String.eqb n r)) rows.

(** * Properties *)


(** ** Numbers *)

(** Up to 53 significant bits an integer is its own double. *)
Lemma to_double_small z : Z.abs z < 2 ^ 53 -> to_double z = Int z.
Proof.
  intros H. unfold to_double.
  destruct (Z.leb_spec (Z.log2 (Z.abs z) - 52) 0) as [_|He]; [reflexivity|].
  exfalso.
  destruct (Z.eq_dec (Z.abs z) 0) as [E|E].
  - rewrite E in He. simpl in He. lia.
  - assert (Z.log2 (Z.abs z) < 53) by (apply Z.log2_lt_pow2; lia). lia.
Qed.

Lemma round_half_even_pos a e :
  0 < e -> Z.log2 a - 52 = e -> 0 < Z.shiftl (round_half_even a e) e.
Proof.
  intros He Hlog.
  assert (Ha : 0 < a).
  { destruct (Z.lt_trichotomy a 0) as [H|[H|H]]; auto.
    - rewrite Z.log2_nonpos in Hlog by lia. lia.
    - subst a. simpl in Hlog. lia. }
  rewrite Z.shiftl_mul_pow2 by lia.
  assert (Hp : 0 < 2 ^ e) by (apply Z.pow_pos_nonneg; lia).
  assert (Hq : 0 < Z.shiftr a e).
  { rewrite Z.shiftr_div_pow2 by lia.
    apply Z.div_str_pos. split; [exact Hp|].
    destruct (Z.log2_spec a Ha) as [Hlo _].
    eapply Z.le_trans; [|exact Hlo].
    apply Z.pow_le_mono_r; lia. }
  unfold round_half_even.
  destruct (_ || _); nia.
Qed.

(** Rounding keeps the sign: the double of an integer is positive exactly
    when the integer is. *)
Lemma to_double_pos z : number_pos (to_double z) = (0 <? z).
Proof.
  unfold to_double.
  destruct (Z.leb_spec (Z.log2 (Z.abs z) - 52) 0) as [_|He]; [reflexivity|].
  pose proof (round_half_even_pos (Z.abs z) _ He eq_refl) as Hr.
  cbv zeta.
  assert (Hz : z <> 0) by (intros ->; simpl in He; lia).
  destruct (Z.shiftl 1 1024 <=? _); simpl.
  - destruct (Z.ltb_spec z 0), (Z.ltb_spec 0 z); simpl; auto; lia.
  - destruct (Z.ltb_spec 0 z),
      (Z.ltb_spec 0 (Z.sgn z * Z.shiftl (round_half_even (Z.abs z)
                                           (Z.log2 (Z.abs z) - 52))
                                        (Z.log2 (Z.abs z) - 52)));
      auto; exfalso; nia.
Qed.

(** ** The monad and the statements *)

Section Basics.
Context {Sch : Type}.
Implicit Types (db : DB Sch) (env : Env Sch) (m : Migration).

Lemma count_existsb n rows :
  negb (Nat.eqb (Sql.count n rows) 0) = existsb (String.eqb n) rows.
Proof.
  unfold Sql.count.
  induction rows as [|r rows IH]; simpl; [reflexivity|].
  destruct (String.eqb n r); simpl; [reflexivity | exact IH].
Qed.

Lemma hasBeenRun_run m db rows :
  migrations db = Some rows ->
  hasBeenRun m db = (Ok (recorded db (name m)), db, [Select (name m)]).
Proof.
  intros H. unfold hasBeenRun, bind, Sql.select_count, ret, recorded.
  rewrite H. simpl. now rewrite count_existsb.
Qed.

Lemma hasBeenRun_no_table m db :
  migrations db = None ->
  hasBeenRun m db = (Err UndefinedTable, db, [Select (name m)]).
Proof.
  intros H. unfold hasBeenRun, bind, Sql.select_count. now rewrite H.
Qed.

End Basics.

(** ** One migration, one transaction *)

Section Single.
Context {Sch : Type}.
Implicit Types (db : DB Sch) (env : Env Sch) (m : Migration).

Lemma _applyMigration_begin env m db :
  _applyMigration env m db =
  let '(r, db', t) := Sql.begin (apply_body env m) db in
  (match r with Ok _ => Ok true | Err e => Err e end, db', t).
Proof.
  unfold _applyMigration, bind at 1.
  fold (apply_body env m).
  destruct (Sql.begin (apply_body env m) db) as [[[a|e] db'] t]; simpl.
  - now rewrite app_nil_r.
  - reflexivity.
Qed.

Lemma apply_body_run env m db :
  exists r db' t, apply_body env m db = (r, db', t) /\ body_run env m db r db' t.
Proof.
  unfold apply_body, bind, log, emit, load, call, bind, emit, throw, ret.
  destruct (require env (location m)) as [code|e] eqn:Hreq; simpl.
  - destruct (up code db) as [[[]|e] dbu] eqn:Hup; simpl.
    + unfold Sql.insert.
      destruct (migrations dbu) as [rows|] eqn:Hrows.
      * destruct (existsb (String.eqb (name m)) rows) eqn:Hdup.
        -- do 3 eexists; split; [reflexivity|].
           eapply run_insert_fails; eauto.
           unfold Sql.insert. now rewrite Hrows, Hdup.
        -- do 3 eexists; split; [reflexivity|].
           eapply run_done; eauto.
      * do 3 eexists; split; [reflexivity|].
        eapply run_insert_fails; eauto.
        unfold Sql.insert. now rewrite Hrows.
    + do 3 eexists; split; [reflexivity|]. eapply run_up_throws; eauto.
  - do 3 eexists; split; [reflexivity|]. now apply run_no_module.
Qed.

End Single.

Section Atomicity.
Context {Sch : Type}.
Implicit Types (db : DB Sch) (env : Env Sch) (m : Migration).

Lemma insert_records n db db' t :
  Sql.insert n db = (Ok tt, db', t) -> recorded db' n = true.
Proof.
  unfold Sql.insert, recorded.
  destruct (migrations db) as [rows|]; [|discriminate].
  destruct (existsb (String.eqb n) rows); [discriminate|].
  intros H; inversion H; subst; simpl.
  rewrite existsb_app; simpl. now rewrite String.eqb_refl, orb_true_r.
Qed.

(** C1: for a migration whose name is not in the ledger, [_applyMigration]
    runs the unit's [up] and the insertion of the name inside one
    transaction.  It commits only when the module loaded, [up] returned and
    the insert succeeded, and the database it leaves is the one the insert
    produced; when any step throws the transaction rolls back, the error
    reaches the caller, the database is the one the call started in, and the
    name is still not recorded. *)
Theorem _applyMigration_atomic env m db r db' t :
  recorded db (name m) = false ->
  _applyMigration env m db = (r, db', t) ->
  exists body,
    t = (Begin :: body ++ [if returns (r, db', t) then Commit else Rollback])%list /\
    never is_boundary body = true /\
    match r with
    | Ok _ =>
        exists code dbu,
          require env (location m) = Ok code /\
          up code db = (Ok tt, dbu) /\
          Sql.insert (name m) dbu = (Ok tt, db', [Insert (name m)]) /\
          recorded db' (name m) = true
    | Err e =>
        db' = db /\ recorded db' (name m) = false /\
        (require env (location m) = Err e \/
         exists code dbu,
           require env (location m) = Ok code /\
           (up code db = (Err e, dbu) \/
            up code db = (Ok tt, dbu) /\
            outcome (Sql.insert (name m) dbu) = Err e))
    end.
Proof.
  intros Hnew Hrun.
  rewrite _applyMigration_begin in Hrun.
  destruct (apply_body_run env m db) as (rb & dbb & tb & Hbody & Hcase).
  unfold Sql.begin in Hrun. rewrite Hbody in Hrun.
  exists tb.
  destruct Hcase; inversion Hrun; subst; clear Hrun; unfold returns; simpl;
    (split; [reflexivity|]); (split; [reflexivity|]).
  - auto.
  - repeat split; eauto 8.
  - repeat split; auto. right. exists code, dbu. split; [assumption|].
    right. split; [assumption|]. now rewrite H1.
  - assert (Hins : Sql.insert (name m) dbu
                   = (Ok tt, mkDB (Some (rows ++ [name m])%list) (schema dbu),
                      [Insert (name m)])).
    { unfold Sql.insert. now rewrite H1, H2. }
    exists code, dbu. repeat split; auto.
    eapply insert_records; eauto.
Qed.

End Atomicity.

Lemma _applyMigration_atomic_witness :
  recorded Example.after10 (name Example.m20) = false /\
  final (_applyMigration Example.broken Example.m20 Example.after10)
  = Example.after10.
Proof.
  split; [reflexivity|].
  destruct (_applyMigration Example.broken Example.m20 Example.after10)
    as [[r db'] t] eqn:Hrun.
  assert (Hr : r = Err (Thrown "boom")).
  { apply (f_equal outcome) in Hrun. vm_compute in Hrun. now inversion Hrun. }
  destruct (_applyMigration_atomic Example.broken Example.m20 Example.after10
              r db' t eq_refl Hrun) as (body & _ & _ & Hcase).
  rewrite Hr in Hcase. destruct Hcase as (Hdb & _). exact Hdb.
Defined.

(** ** The guards of the single-unit commands *)

Section Guards.
Context {Sch : Type}.
Implicit Types (db : DB Sch) (env : Env Sch) (m : Migration).

Lemma applyMigration_missing env loc db :
  existsSync env loc = false ->
  applyMigration env loc db
  = (Ok VUndefined, db,
     [ExistsSync loc; Log ("Run aborted. " ++ loc ++ " not found")]).
Proof.
  intros Hmissing. unfold applyMigration, bind, emit. now rewrite Hmissing.
Qed.

Lemma revertMigration_missing env loc db :
  existsSync env loc = false ->
  revertMigration env loc db
  = (Ok VUndefined, db,
     [ExistsSync loc; Log ("Revert aborted. " ++ loc ++ " not found")]).
Proof.
  intros Hmissing. unfold revertMigration, bind, emit. now rewrite Hmissing.
Qed.

(** C8 (amended): for a location that does not exist on the filesystem,
    [applyMigration] and [revertMigration] log that the run (the revert) was
    aborted and return normally, without raising any error; they attempt no
    database access at all: no query is issued, no transaction is opened and
    the database, ledger included, is unchanged. *)
Theorem missing_file_aborts env loc db :
  existsSync env loc = false ->
  applyMigration env loc db
  = (Ok VUndefined, db,
     [ExistsSync loc; Log ("Run aborted. " ++ loc ++ " not found")]) /\
  revertMigration env loc db
  = (Ok VUndefined, db,
     [ExistsSync loc; Log ("Revert aborted. " ++ loc ++ " not found")]) /\
  never db_event (trace (applyMigration env loc db)) = true /\
  never db_event (trace (revertMigration env loc db)) = true.
Proof.
  intros Hmissing.
  rewrite (applyMigration_missing env loc db Hmissing).
  rewrite (revertMigration_missing env loc db Hmissing).
  repeat split; reflexivity.
Qed.

(** C6 (amended): for a location whose derived name is not recorded in the
    ledger, [revertMigration] opens no transaction, performs no ledger
    mutation (the database is left as it was) and never invokes the unit's
    [down]; when the file exists and the ledger table exists it logs that the
    revert was aborted and returns normally, raising no error to its
    caller. *)
Theorem revert_unrecorded_aborts env loc db :
  recorded db (name (migrationLocationToMigration loc)) = false ->
  final (revertMigration env loc db) = db /\
  never is_begin (trace (revertMigration env loc db)) = true /\
  never is_down (trace (revertMigration env loc db)) = true /\
  never is_write (trace (revertMigration env loc db)) = true /\
  (existsSync env loc = true -> migrations db <> None ->
   revertMigration env loc db
   = (Ok VUndefined, db,
      [ExistsSync loc;
       Select (name (migrationLocationToMigration loc));
       Log ("Revert aborted because no migration with name="
            ++ name (migrationLocationToMigration loc)
            ++ " found in migrations table")])).
Proof.
  intros Hnew.
  destruct (existsSync env loc) eqn:Hfile.
  - destruct (migrations db) as [rows|] eqn:Htable.
    + assert (Hr : revertMigration env loc db
                   = (Ok VUndefined, db,
                      [ExistsSync loc;
                       Select (name (migrationLocationToMigration loc));
                       Log ("Revert aborted because no migration with name="
                            ++ name (migrationLocationToMigration loc)
                            ++ " found in migrations table")])).
      { unfold revertMigration. unfold bind at 1. unfold emit at 1.
        rewrite Hfile. cbn [negb]. unfold bind at 1.
        rewrite (hasBeenRun_run _ db rows Htable), Hnew.
        reflexivity. }
      rewrite Hr. repeat split; reflexivity.
    + assert (Hr : revertMigration env loc db
                   = (Err UndefinedTable, db,
                      [ExistsSync loc;
                       Select (name (migrationLocationToMigration loc))])).
      { unfold revertMigration. unfold bind at 1. unfold emit at 1.
        rewrite Hfile. cbn [negb]. unfold bind at 1.
        rewrite (hasBeenRun_no_table _ db Htable). reflexivity. }
      rewrite Hr. repeat split; try reflexivity. intros _ H. now elim H.
  - rewrite (revertMigration_missing env loc db Hfile).
    repeat split; try reflexivity. discriminate.
Qed.

End Guards.

Lemma missing_file_aborts_witness :
  existsSync Example.fixed "/p1/11-missing.js" = false /\
  never db_event (trace (applyMigration Example.fixed "/p1/11-missing.js" Example.after10))
  = true.
Proof.
  split; [reflexivity|].
  apply (missing_file_aborts Example.fixed "/p1/11-missing.js" Example.after10).
  reflexivity.
Defined.

(** C8 as stated fails: on a missing file neither command fails with an
    error; each returns [undefined] to its caller. *)
Lemma missing_file_returns_normally :
  existsSync Example.fixed "/p1/11-missing.js" = false /\
  outcome (applyMigration Example.fixed "/p1/11-missing.js" Example.after10)
  = Ok VUndefined /\
  outcome (revertMigration Example.fixed "/p1/11-missing.js" Example.after10)
  = Ok VUndefined /\
  (forall e, outcome (applyMigration Example.fixed "/p1/11-missing.js" Example.after10)
             <> Err e) /\
  (forall e, outcome (revertMigration Example.fixed "/p1/11-missing.js" Example.after10)
             <> Err e).
Proof.
  repeat split; try reflexivity; intros e; vm_compute; discriminate.
Qed.

Lemma revert_unrecorded_aborts_witness :
  recorded Example.after10 (name Example.m30) = false /\
  revertMigration Example.fixed "/p1/30-add_index.js" Example.after10
  = (Ok VUndefined, Example.after10,
     [ExistsSync "/p1/30-add_index.js"; Select "30-add_index";
      Log "Revert aborted because no migration with name=30-add_index found in migrations table"]).
Proof.
  split; [reflexivity|].
  apply (revert_unrecorded_aborts Example.fixed "/p1/30-add_index.js" Example.after10).
  - reflexivity.
  - reflexivity.
  - discriminate.
Defined.

(** C6 as stated fails: reverting a migration that was never applied raises
    nothing; the call returns [undefined]. *)
Lemma revert_unrecorded_returns_normally :
  existsSync Example.fixed "/p1/30-add_index.js" = true /\
  recorded Example.after10 (name Example.m30) = false /\
  outcome (revertMigration Example.fixed "/p1/30-add_index.js" Example.after10)
  = Ok VUndefined /\
  (forall e, outcome (revertMigration Example.fixed "/p1/30-add_index.js" Example.after10)
             <> Err e).
Proof.
  repeat split; try reflexivity. intros e; vm_compute; discriminate.
Qed.

(** ** The batch loop *)

Section Batch.
Context {Sch : Type}.
Implicit Types (db : DB Sch) (env : Env Sch) (m : Migration).

Lemma _applyMigration_cases env m db :
  (exists e t,
      _applyMigration env m db = (Err e, db, t) /\
      commits t = 0%nat /\ required t = [location m] /\
      (ups t = [] \/ ups t = [location m])) \/
  (exists code dbu rows,
      require env (location m) = Ok code /\
      up code db = (Ok tt, dbu) /\
      migrations dbu = Some rows /\
      existsb (String.eqb (name m)) rows = false /\
      _applyMigration env m db
      = (Ok true, mkDB (Some (rows ++ [name m])%list) (schema dbu), applied_trace m)).
Proof.
  rewrite _applyMigration_begin.
  destruct (apply_body_run env m db) as (rb & dbb & tb & Hbody & Hcase).
  unfold Sql.begin. rewrite Hbody.
  destruct Hcase.
  - left. do 2 eexists. repeat split. now left.
  - left. do 2 eexists. repeat split. now right.
  - left. do 2 eexists. repeat split. now right.
  - right. exists code, dbu, rows. repeat split; assumption.
Qed.

Lemma apply_loop_skip env m rest n db rows :
  migrations db = Some rows ->
  recorded db (name m) = true ->
  apply_loop env (m :: rest) n db
  = let '(r, db', t) := apply_loop env rest n db in
    (r, db', Select (name m) :: t).
Proof.
  intros Htable Hrec. cbn [apply_loop]. unfold bind at 1.
  rewrite (hasBeenRun_run m db rows Htable), Hrec. reflexivity.
Qed.

Lemma apply_loop_no_table env m rest n db :
  migrations db = None ->
  apply_loop env (m :: rest) n db = (Err UndefinedTable, db, [Select (name m)]).
Proof.
  intros Htable. cbn [apply_loop]. unfold bind at 1.
  now rewrite (hasBeenRun_no_table m db Htable).
Qed.

Lemma apply_loop_fail env m rest n db rows e t :
  migrations db = Some rows ->
  recorded db (name m) = false ->
  _applyMigration env m db = (Err e, db, t) ->
  apply_loop env (m :: rest) n db = (Err e, db, Select (name m) :: t).
Proof.
  intros Htable Hrec Hfail. cbn [apply_loop]. unfold bind at 1.
  rewrite (hasBeenRun_run m db rows Htable), Hrec. cbn [negb].
  unfold bind at 1. rewrite Hfail. reflexivity.
Qed.

Lemma apply_loop_apply env m rest n db rows db1 t :
  migrations db = Some rows ->
  recorded db (name m) = false ->
  _applyMigration env m db = (Ok true, db1, t) ->
  apply_loop env (m :: rest) n db
  = let '(r, db', t') := apply_loop env rest (Datatypes.S n) db1 in
    (r, db', Select (name m) :: t ++ t')%list.
Proof.
  intros Htable Hrec Hok. cbn [apply_loop]. unfold bind at 1.
  rewrite (hasBeenRun_run m db rows Htable), Hrec. cbn [negb].
  unfold bind at 1. rewrite Hok.
  destruct (apply_loop env rest (Datatypes.S n) db1) as [[r db'] t'].
  reflexivity.
Qed.

Lemma apply_loop_run env ms n db :
  loop_run env ms n db
    (outcome (apply_loop env ms n db))
    (final (apply_loop env ms n db))
    (trace (apply_loop env ms n db)).
Proof.
  revert n db. induction ms as [|m rest IH]; intros n db; [constructor|].
  destruct (migrations db) as [rows|] eqn:Htable.
  2:{ rewrite (apply_loop_no_table env m rest n db Htable). now constructor. }
  assert (Hsome : migrations db <> None) by congruence.
  destruct (recorded db (name m)) eqn:Hrec.
  - rewrite (apply_loop_skip env m rest n db rows Htable Hrec).
    specialize (IH n db).
    destruct (apply_loop env rest n db) as [[r db'] t].
    now apply loop_skip.
  - destruct (_applyMigration_cases env m db)
      as [(e & t & Hrun & Hc & Hq & Hu)
         | (code & dbu & rows' & _ & _ & Hrows & Hnew & Hrun)].
    + rewrite (apply_loop_fail env m rest n db rows e t Htable Hrec Hrun).
      now apply loop_fail.
    + rewrite (apply_loop_apply env m rest n db rows _ _ Htable Hrec Hrun).
      specialize (IH (Datatypes.S n) (mkDB (Some (rows' ++ [name m])%list) (schema dbu))).
      destruct (apply_loop env rest (Datatypes.S n) _) as [[r db'] t'].
      apply loop_apply with (db1 := mkDB (Some (rows' ++ [name m])%list) (schema dbu));
        auto.
      unfold recorded; simpl. rewrite existsb_app; simpl.
      now rewrite String.eqb_refl, orb_true_r.
Qed.

(** The loop is a function: a run is the run. *)
Lemma loop_run_apply_loop env ms n db r db' t :
  loop_run env ms n db r db' t -> apply_loop env ms n db = (r, db', t).
Proof.
  induction 1 as [n db | m rest n db Htable
                 | m rest n db r db' t Htable Hrec _ IH
                 | m rest n db e t Htable Hrec Hrun _ _ _
                 | m rest n db db1 r db' t Htable Hrec Hrun _ _ IH].
  - reflexivity.
  - now apply apply_loop_no_table.
  - destruct (migrations db) as [rows|] eqn:E; [|congruence].
    rewrite (apply_loop_skip env m rest n db rows E Hrec), IH. reflexivity.
  - destruct (migrations db) as [rows|] eqn:E; [|congruence].
    now apply apply_loop_fail with (rows := rows).
  - destruct (migrations db) as [rows|] eqn:E; [|congruence].
    rewrite (apply_loop_apply env m rest n db rows _ _ E Hrec Hrun), IH.
    reflexivity.
Qed.


End Batch.

(** ** Discovery leaves the database alone *)

Section Discovery.
Context {Sch : Type}.
Implicit Types (db : DB Sch) (env : Env Sch) (m : Migration).

Lemma findMigrationsIn_run env dir db :
  findMigrationsIn env dir db
  = (match glob env (dir ++ "/*.js") with
     | Ok files => Ok (map migrationLocationToMigration files)
     | Err er => Err er
     end, db, [Glob (dir ++ "/*.js")]).
Proof.
  unfold findMigrationsIn, bind, emit, throw, ret.
  destruct (glob env (dir ++ "/*.js")); reflexivity.
Qed.

Lemma collect_pure env paths acc :
  exists r t,
    forallb is_glob t = true /\
    forall db, collect env paths acc db = (r, db, t).
Proof.
  revert acc. induction paths as [|p rest IH]; intros acc.
  - exists (Ok acc), []. split; [reflexivity|]. intros db. reflexivity.
  - destruct (glob env (p ++ "/*.js")) as [files|er] eqn:Hglob.
    + destruct (IH (acc ++ map migrationLocationToMigration files)%list)
        as (r & t & Hlooks & Hrest).
      exists r, (Glob (p ++ "/*.js") :: t). split; [exact Hlooks|]. intros db.
      cbn [collect]. unfold bind at 1.
      rewrite findMigrationsIn_run, Hglob. now rewrite Hrest.
    + exists (Err er), [Glob (p ++ "/*.js")]. split; [reflexivity|]. intros db.
      cbn [collect]. unfold bind at 1.
      rewrite findMigrationsIn_run, Hglob. reflexivity.
Qed.

Lemma findAllMigrations_pure env paths :
  exists r t,
    forallb is_glob t = true /\
    forall db, findAllMigrations env paths db = (r, db, t).
Proof.
  destruct (collect_pure env paths []) as (r & t & Hlooks & H).
  exists (match r with
          | Ok ms => Ok (JsArray.sort comparefn ms)
          | Err e => Err e
          end), t.
  split; [exact Hlooks|].
  intros db. unfold findAllMigrations, bind. rewrite H.
  destruct r; unfold ret; rewrite ?app_nil_r; reflexivity.
Qed.

Lemma globs_look t :
  forallb is_glob t = true -> forallb looks t = true /\ never is_report t = true.
Proof.
  induction t as [|e t IH]; [now split|]. simpl.
  intros H. apply andb_true_iff in H as [He Ht]. destruct (IH Ht) as [Hl Hr].
  destruct e; try discriminate. simpl. now rewrite Hl.
Qed.

Lemma looks_quiet t :
  forallb looks t = true ->
  commits t = 0%nat /\ ups t = [] /\ required t = [] /\ never is_begin t = true.
Proof.
  intros H. induction t as [|e t IH]; [now repeat split|].
  simpl in H. apply andb_true_iff in H as [He Ht].
  destruct (IH Ht) as (Hc & Hu & Hq & Hb).
  destruct e; try discriminate; repeat split; assumption.
Qed.

Lemma commits_app t1 t2 : commits (t1 ++ t2) = (commits t1 + commits t2)%nat.
Proof. unfold commits. now rewrite filter_app, length_app. Qed.

Lemma ups_app t1 t2 : ups (t1 ++ t2) = (ups t1 ++ ups t2)%list.
Proof.
  induction t1 as [|e t1 IH]; [reflexivity|].
  destruct e; simpl; rewrite ?IH; reflexivity.
Qed.

Lemma required_app t1 t2 : required (t1 ++ t2) = (required t1 ++ required t2)%list.
Proof.
  induction t1 as [|e t1 IH]; [reflexivity|].
  destruct e; simpl; rewrite ?IH; reflexivity.
Qed.


End Discovery.

(** ** The ledger under apply and revert *)

Section Ledger.
Context {Sch : Type}.
Implicit Types (db : DB Sch) (env : Env Sch) (m : Migration).

Lemma grows_refl db : grows db db.
Proof.
  unfold grows. destruct (migrations db) as [rows|]; [|exact I].
  exists []. now rewrite app_nil_r.
Qed.

Lemma grows_trans db1 db2 db3 : grows db1 db2 -> grows db2 db3 -> grows db1 db3.
Proof.
  unfold grows. destruct (migrations db1) as [rows|]; [|trivial].
  intros [a1 H1]. rewrite H1. intros [a2 H2].
  exists (a1 ++ a2)%list. now rewrite app_assoc.
Qed.

Lemma grows_recorded db db' n :
  grows db db' -> recorded db n = true -> recorded db' n = true.
Proof.
  unfold grows, recorded. destruct (migrations db) as [rows|]; [|discriminate].
  intros [added ->] H. rewrite existsb_app, H. reflexivity.
Qed.

Lemma grows_table db db' :
  grows db db' -> migrations db <> None -> migrations db' <> None.
Proof.
  unfold grows. destruct (migrations db) as [rows|]; [|congruence].
  intros [added ->] _. discriminate.
Qed.

Lemma up_keeps env m code db dbu :
  units_keep_ledger env ->
  require env (location m) = Ok code ->
  up code db = (Ok tt, dbu) ->
  migrations dbu = migrations db.
Proof.
  intros Hkeep Hreq Hup. destruct (Hkeep _ _ Hreq) as [Hu _].
  specialize (Hu db). now rewrite Hup in Hu.
Qed.

Lemma _applyMigration_grows env m db :
  units_keep_ledger env -> grows db (final (_applyMigration env m db)).
Proof.
  intros Hkeep.
  destruct (_applyMigration_cases env m db)
    as [(e & t & -> & _) | (code & dbu & rows & Hreq & Hup & Hrows & _ & ->)].
  - apply grows_refl.
  - unfold grows, final; simpl.
    rewrite <- (up_keeps env m code db dbu Hkeep Hreq Hup), Hrows. eauto.
Qed.

Lemma apply_loop_grows env ms n db :
  units_keep_ledger env -> grows db (final (apply_loop env ms n db)).
Proof.
  intros Hkeep. revert n db.
  induction ms as [|m rest IH]; intros n db; [apply grows_refl|].
  destruct (migrations db) as [rows|] eqn:Htable.
  2:{ rewrite (apply_loop_no_table env m rest n db Htable). apply grows_refl. }
  destruct (recorded db (name m)) eqn:Hrec.
  - rewrite (apply_loop_skip env m rest n db rows Htable Hrec).
    specialize (IH n db).
    destruct (apply_loop env rest n db) as [[r db'] t]. exact IH.
  - pose proof (_applyMigration_grows env m db Hkeep) as Hg.
    destruct (_applyMigration_cases env m db)
      as [(e & t & Hrun & _) | (code & dbu & rows' & _ & _ & _ & _ & Hrun)].
    + rewrite (apply_loop_fail env m rest n db rows e t Htable Hrec Hrun).
      apply grows_refl.
    + rewrite Hrun in Hg.
      rewrite (apply_loop_apply env m rest n db rows _ _ Htable Hrec Hrun).
      specialize (IH (Datatypes.S n) (mkDB (Some (rows' ++ [name m])%list) (schema dbu))).
      destruct (apply_loop env rest (Datatypes.S n) _) as [[r db'] t'].
      eapply grows_trans; [exact Hg | exact IH].
Qed.


Lemma createMigrationTable_run db :
  exists db' t,
    createMigrationTable db = (Ok tt, db', t) /\
    migrations db' <> None /\ grows db db' /\ schema db' = schema db /\
    (migrations db <> None -> db' = db /\ t = [SelectExists]).
Proof.
  unfold createMigrationTable, bind, Sql.select_exists, Sql.create_table, ret, grows.
  destruct (migrations db) as [rows|] eqn:Htable; cbn [negb].
  - exists db, [SelectExists]. rewrite Htable. repeat split; try congruence.
    exists []. now rewrite app_nil_r.
  - rewrite Htable. do 2 eexists. repeat split; simpl; congruence.
Qed.

Lemma applyAllMigrations_grows env paths db :
  units_keep_ledger env -> grows db (final (applyAllMigrations env paths db)).
Proof.
  intros Hkeep. unfold applyAllMigrations. unfold bind at 1.
  destruct (createMigrationTable_run db) as (db1 & t1 & -> & _ & Hg1 & _).
  eapply grows_trans; [exact Hg1|].
  unfold bind at 1.
  destruct (findAllMigrations_pure env paths) as (r & t & _ & Hfind).
  rewrite Hfind.
  destruct r as [ms|e]; [|apply grows_refl].
  unfold bind at 1.
  pose proof (apply_loop_grows env ms 0%nat db1 Hkeep) as Hg.
  destruct (apply_loop env ms 0%nat db1) as [[[k|e] db2] t2]; [|exact Hg].
  unfold bind, log, emit, ret.
  destruct (negb (Nat.eqb k 0)); exact Hg.
Qed.

Lemma revertMigration_ledger env loc db :
  units_keep_ledger env ->
  migrations (final (revertMigration env loc db)) = migrations db \/
  exists rows,
    migrations db = Some rows /\
    recorded db (name (migrationLocationToMigration loc)) = true /\
    outcome (revertMigration env loc db) = Ok VUndefined /\
    migrations (final (revertMigration env loc db))
    = Some (filter (fun r => negb (String.eqb (name (migrationLocationToMigration loc)) r))
              rows).
Proof.
  intros Hkeep. set (m := migrationLocationToMigration loc).
  remember (revertMigration env loc db) as x eqn:Hx.
  unfold revertMigration in Hx. fold m in Hx.
  unfold bind at 1 in Hx. unfold emit at 1 in Hx.
  destruct (existsSync env loc); cbn [negb] in Hx; [|subst x; now left].
  unfold bind at 1 in Hx.
  destruct (migrations db) as [rows|] eqn:Htable.
  2:{ rewrite (hasBeenRun_no_table m db Htable) in Hx. subst x. now left. }
  rewrite (hasBeenRun_run m db rows Htable) in Hx.
  destruct (recorded db (name m)) eqn:Hrec; cbn [negb] in Hx; [|subst x; now left].
  unfold bind, Sql.begin, log, emit, load, throw, ret, call, Sql.delete in Hx.
  destruct (require env (location m)) as [code|e] eqn:Hreq; simpl in Hx;
    [|subst x; now left].
  destruct (down code db) as [[[]|e] dbd] eqn:Hdown; simpl in Hx;
    [|subst x; now left].
  assert (Hd : migrations dbd = migrations db).
  { destruct (Hkeep _ _ Hreq) as [_ Hd]. specialize (Hd db). now rewrite Hdown in Hd. }
  rewrite Hd, Htable in Hx. simpl in Hx. subst x.
  right. exists rows. repeat split; reflexivity.
Qed.


End Ledger.


Lemma creates_keeps_ledger tbl :
  keeps_ledger (up (Example.creates tbl)) /\ keeps_ledger (down (Example.creates tbl)).
Proof. split; intros db; reflexivity. Qed.

Lemma breaks_keeps_ledger tbl :
  keeps_ledger (up (Example.breaks tbl)) /\ keeps_ledger (down (Example.breaks tbl)).
Proof. split; intros db; reflexivity. Qed.

Lemma fs_keeps_ledger unit20 :
  keeps_ledger (up unit20) /\ keeps_ledger (down unit20) ->
  units_keep_ledger (Example.fs unit20).
Proof.
  intros H20 loc code. unfold Example.fs; cbn [require].
  repeat match goal with
         | |- context [String.eqb ?a ?b] => destruct (String.eqb a b)
         end; intros Hreq; inversion Hreq; subst;
    auto using creates_keeps_ledger.
Qed.

Lemma fixed_keeps_ledger : units_keep_ledger Example.fixed.
Proof. apply fs_keeps_ledger, creates_keeps_ledger. Qed.

Lemma broken_keeps_ledger : units_keep_ledger Example.broken.
Proof. apply fs_keeps_ledger, breaks_keeps_ledger. Qed.


(** ** Fail-fast and resumable batches *)

Section Resume.
Context {Sch : Type}.
Implicit Types (db : DB Sch) (env : Env Sch) (m : Migration).



Lemma loop_run_grows env ms n db r db' t :
  units_keep_ledger env -> loop_run env ms n db r db' t -> grows db db'.
Proof.
  intros Hkeep H. apply loop_run_apply_loop in H.
  pose proof (apply_loop_grows env ms n db Hkeep) as Hg. now rewrite H in Hg.
Qed.

Lemma loop_run_recorded env pre n db k db1 t :
  units_keep_ledger env ->
  loop_run env pre n db (Ok k) db1 t ->
  Forall (fun m => recorded db1 (name m) = true) pre.
Proof.
  intros Hkeep H. remember (Ok k) as r eqn:Hr.
  induction H as [n db | m pre n db Htable
                 | m pre n db r db' t Htable Hrec Hrest IH
                 | m pre n db e t Htable Hrec Hrun _ _ _
                 | m pre n db db0 r db' t Htable Hrec Hrun Hnow Hrest IH];
    try discriminate.
  - constructor.
  - constructor; [|now apply IH].
    eapply grows_recorded; [|exact Hrec]. eapply loop_run_grows; eauto.
  - constructor; [|now apply IH].
    eapply grows_recorded; [|exact Hnow]. eapply loop_run_grows; eauto.
Qed.


End Resume.


(** ** Running the batch again *)

Section Idempotence.
Context {Sch : Type}.
Implicit Types (db : DB Sch) (env : Env Sch) (m : Migration).



End Idempotence.

(** ** The shape of a batch run *)

Section Shape.
Context {Sch : Type}.
Implicit Types (db : DB Sch) (env : Env Sch) (m : Migration).

Lemma applyAllMigrations_shape env paths db :
  exists dba ta rf tf,
    createMigrationTable db = (Ok tt, dba, ta) /\
    migrations dba <> None /\
    grows db dba /\
    commits ta = 0%nat /\ ups ta = [] /\ required ta = [] /\
    never is_report ta = true /\
    (migrations db <> None -> dba = db /\ ta = [SelectExists]) /\
    forallb looks tf = true /\
    never is_report tf = true /\
    (forall db', findAllMigrations env paths db' = (rf, db', tf)) /\
    applyAllMigrations env paths db
    = match rf with
      | Err e => (Err e, dba, ta ++ tf)
      | Ok ms =>
          let '(rl, dbl, tl) := apply_loop env ms 0%nat dba in
          match rl with
          | Err e => (Err e, dbl, ta ++ tf ++ tl)
          | Ok k => (Ok VUndefined, dbl, ta ++ tf ++ tl ++ [Log (report k)])
          end
      end%list.
Proof.
  destruct (createMigrationTable_run db) as (dba & ta & Hc & Htab & Hg & _ & Hsame).
  destruct (findAllMigrations_pure env paths) as (rf & tf & Hglobs & Hfind).
  destruct (globs_look tf Hglobs) as [Hlooks Hrep].
  exists dba, ta, rf, tf.
  assert (Hta : ta = [SelectExists] \/ ta = [SelectExists; CreateTable]).
  { revert Hc. unfold createMigrationTable, bind, Sql.select_exists, Sql.create_table, ret.
    destruct (migrations db) eqn:E; cbn [negb]; rewrite ?E; intros H; inversion H; auto. }
  repeat match goal with |- _ /\ _ => split end; auto;
    try (destruct Hta as [-> | ->]; reflexivity).
  unfold applyAllMigrations. unfold bind at 1. rewrite Hc.
  unfold bind at 1. rewrite Hfind.
  destruct rf as [ms|e]; [|reflexivity].
  unfold bind at 1.
  destruct (apply_loop env ms 0%nat dba) as [[[k|e] dbl] tl]; [|reflexivity].
  unfold bind, log, emit, ret, report.
  destruct (negb (Nat.eqb k 0)); simpl; rewrite ?app_nil_r; reflexivity.
Qed.

(** What the loop ends in is what [applyAllMigrations] ends in: an error of
    the loop reaches the caller, with the database the loop left. *)
Lemma applyAllMigrations_propagates env paths db ms tf e dbl tl :
  findAllMigrations env paths (final (createMigrationTable db))
  = (Ok ms, final (createMigrationTable db), tf) ->
  apply_loop env ms 0%nat (final (createMigrationTable db)) = (Err e, dbl, tl) ->
  outcome (applyAllMigrations env paths db) = Err e /\
  final (applyAllMigrations env paths db) = dbl /\
  exists t0, trace (applyAllMigrations env paths db) = (t0 ++ tl)%list.
Proof.
  intros Hfind Hloop.
  destruct (applyAllMigrations_shape env paths db)
    as (dba & ta & rf & tf' & Hc & _ & _ & _ & _ & _ & _ & _ & _ & _ & Hfind' & ->).
  rewrite Hc in Hfind, Hloop. unfold final in Hfind, Hloop; simpl in Hfind, Hloop.
  rewrite Hfind' in Hfind. inversion Hfind; subst.
  rewrite Hloop. repeat split.
  exists (ta ++ tf)%list. unfold trace; simpl. now rewrite app_assoc.
Qed.

End Shape.

(** ** Sorting by order key *)

Section Sorting.

Lemma insert_perm {A} (cmp : A -> A -> number) x l :
  Permutation (JsArray.insert cmp x l) (x :: l).
Proof.
  induction l as [|y l IH]; simpl; [reflexivity|].
  destruct (JsArray.after cmp x y); [|reflexivity].
  rewrite IH. apply perm_swap.
Qed.

Lemma sort_perm {A} (cmp : A -> A -> number) l :
  Permutation (JsArray.sort cmp l) l.
Proof.
  induction l as [|x l IH]; simpl; [reflexivity|].
  fold (JsArray.sort cmp l). now rewrite insert_perm, IH.
Qed.

Lemma after_int x y a b :
  order x = Int a -> order y = Int b ->
  JsArray.after comparefn x y = (b <? a).
Proof.
  intros Hx Hy. unfold JsArray.after, comparefn, number_sub. rewrite Hx, Hy.
  rewrite to_double_pos.
  destruct (Z.ltb_spec 0 (a - b)), (Z.ltb_spec b a); auto; lia.
Qed.

Lemma order_lt_int a b x y :
  order a = Int x -> order b = Int y -> x < y -> order_lt a b.
Proof. intros Ha Hb H. unfold order_lt. now rewrite Ha, Hb. Qed.

Lemma order_lt_trans a b c : order_lt a b -> order_lt b c -> order_lt a c.
Proof.
  unfold order_lt.
  destruct (order a), (order b), (order c); try easy. lia.
Qed.

Lemma insert_sorted x l :
  is_int (order x) = true ->
  Forall (fun m => is_int (order m) = true) l ->
  ~ In (order x) (map order l) ->
  StronglySorted order_lt l ->
  StronglySorted order_lt (JsArray.insert comparefn x l).
Proof.
  intros Hx Hl Hnew Hs.
  destruct (order x) as [|a|] eqn:Ex; [discriminate| |discriminate].
  induction Hs as [|y l Hs IH Hy]; simpl.
  - repeat constructor.
  - inversion Hl as [|? ? Hyi Hli]; subst.
    destruct (order y) as [|b|] eqn:Ey; [discriminate| |discriminate].
    rewrite (after_int x y a b Ex Ey).
    assert (Hab : a <> b).
    { intros ->. apply Hnew. simpl. left. now rewrite Ey. }
    destruct (Z.ltb_spec b a) as [Hlt|Hge].
    + constructor.
      * apply IH; auto. intros Hin. apply Hnew. now right.
      * apply (Permutation_Forall (x := x :: l)).
        { symmetry. apply insert_perm. }
        constructor; [|exact Hy].
        now apply (order_lt_int y x b a).
    + assert (Hxy : order_lt x y) by (apply (order_lt_int x y a b); auto; lia).
      constructor; [now constructor|].
      constructor; [exact Hxy|].
      eapply Forall_impl; [|exact Hy].
      intros z Hz. eapply order_lt_trans; eauto.
Qed.

(** On pairwise distinct integer keys the sort yields the strictly ascending
    arrangement. *)
Lemma sort_sorted l :
  Forall (fun m => is_int (order m) = true) l ->
  NoDup (map order l) ->
  StronglySorted order_lt (JsArray.sort comparefn l).
Proof.
  induction l as [|x l IH]; intros Hint Hnd; simpl; [constructor|].
  fold (JsArray.sort comparefn l).
  inversion Hint; subst. inversion Hnd; subst.
  apply insert_sorted; auto.
  - apply (Permutation_Forall (x := l)); [symmetry; apply sort_perm | assumption].
  - intros Hin. match goal with H : ~ In _ _ |- _ => apply H end.
    eapply Permutation_in; [|exact Hin].
    apply Permutation_map, sort_perm.
Qed.

(** Strictly ascending arrangements of the same descriptors coincide: on
    distinct integer keys any conforming sort returns what [JsArray.sort]
    returns. *)
Lemma sorted_unique (l1 l2 : list Migration) :
  StronglySorted order_lt l1 -> StronglySorted order_lt l2 ->
  Permutation l1 l2 -> l1 = l2.
Proof.
  intros H1. revert l2.
  induction H1 as [|x l1 Hs1 IH Hx]; intros l2 H2 Hp.
  - apply Permutation_nil in Hp. now subst.
  - destruct H2 as [|y l2 Hs2 Hy].
    + symmetry in Hp. apply Permutation_nil in Hp. discriminate.
    + assert (Hirr : forall z, ~ order_lt z z).
      { intros z. unfold order_lt. destruct (order z); [easy | lia | easy]. }
      assert (Hxy : x = y).
      { assert (Hin1 : In x (y :: l2)) by (eapply Permutation_in; [exact Hp | now left]).
        assert (Hin2 : In y (x :: l1)).
        { eapply Permutation_in; [symmetry; exact Hp | now left]. }
        destruct Hin1 as [->|Hin1]; [reflexivity|].
        destruct Hin2 as [->|Hin2]; [reflexivity|].
        rewrite Forall_forall in Hx, Hy.
        exfalso. apply (Hirr x). eapply order_lt_trans; [apply Hx | apply Hy]; eauto. }
      subst y. f_equal. apply IH; [exact Hs2|].
      eapply Permutation_cons_inv; eauto.
Qed.

Lemma subseq_sorted {A} (R : A -> A -> Prop) (l1 l2 : list A) :
  subseq l1 l2 -> StronglySorted R l2 -> StronglySorted R l1.
Proof.
  intros Hsub. induction Hsub as [|x l1 l2 Hsub IH|x l1 l2 Hsub IH]; intros Hs.
  - constructor.
  - inversion Hs; subst. now apply IH.
  - inversion Hs as [|? ? Hs' Hx]; subst. constructor; [now apply IH|].
    clear IH Hs Hs'. induction Hsub; inversion Hx; subst; auto.
Qed.

End Sorting.

(** ** Ascending order of application *)

Section Ordering.
Context {Sch : Type}.
Implicit Types (db : DB Sch) (env : Env Sch) (m : Migration).

Lemma collect_found env paths filess acc db :
  Forall2 (fun p files => glob env (p ++ "/*.js") = Ok files) paths filess ->
  exists t,
    collect env paths acc db
    = (Ok (acc ++ map migrationLocationToMigration (List.concat filess))%list, db, t).
Proof.
  intros H. revert acc.
  induction H as [|p files paths filess Hglob _ IH]; intros acc.
  - exists []. simpl. now rewrite app_nil_r.
  - destruct (IH (acc ++ map migrationLocationToMigration files)%list) as [t Ht].
    exists (Glob (p ++ "/*.js") :: t).
    cbn [collect]. unfold bind at 1. rewrite findMigrationsIn_run, Hglob, Ht.
    simpl. now rewrite map_app, app_assoc.
Qed.

Lemma findAllMigrations_found env paths filess db :
  Forall2 (fun p files => glob env (p ++ "/*.js") = Ok files) paths filess ->
  outcome (findAllMigrations env paths db)
  = Ok (JsArray.sort comparefn (map migrationLocationToMigration (List.concat filess))).
Proof.
  intros H. destruct (collect_found env paths filess [] db H) as [t Ht].
  unfold findAllMigrations, bind. now rewrite Ht.
Qed.

Lemma subseq_nil_l {A} (l : list A) : subseq [] l.
Proof. induction l; constructor; assumption. Qed.

(** The loop invokes [_applyMigration] on a subsequence of its list, in the
    order of the list. *)
Lemma loop_run_called env ms n db r db' t :
  loop_run env ms n db r db' t ->
  exists called, required t = map location called /\ subseq called ms.
Proof.
  induction 1 as [n db | m rest n db Htable
                 | m rest n db r db' t Htable Hrec _ IH
                 | m rest n db e t Htable Hrec Hrun _ Hq _
                 | m rest n db db1 r db' t Htable Hrec Hrun _ _ IH].
  - exists []. split; [reflexivity | constructor].
  - exists []. split; [reflexivity | apply subseq_nil_l].
  - destruct IH as (called & Hq & Hsub).
    exists called. split; [exact Hq | now constructor].
  - exists [m]. split; [simpl; exact Hq|].
    apply subseq_keep, subseq_nil_l.
  - destruct IH as (called & Hq & Hsub).
    exists (m :: called). split; [simpl; now rewrite Hq | now constructor].
Qed.

(** C3: when the files the roots hold yield descriptors whose order keys are
    integers, pairwise distinct (as the Numbers the code compares: two
    numerals past 2^53 can be one key), [findAllMigrations] returns their
    strictly ascending arrangement, whichever root each one came from (it is the only
    such arrangement, so any conforming sort returns it), and
    [applyAllMigrations] invokes [_applyMigration] on descriptors taken from
    that sequence in the order of the sequence: in strictly ascending order
    of their keys. *)
Theorem applyAllMigrations_ascending env paths filess db :
  Forall2 (fun p files => glob env (p ++ "/*.js") = Ok files) paths filess ->
  Forall (fun m => is_int (order m) = true)
    (map migrationLocationToMigration (List.concat filess)) ->
  NoDup (map order (map migrationLocationToMigration (List.concat filess))) ->
  exists called sorted,
    outcome (findAllMigrations env paths db) = Ok sorted /\
    Permutation sorted (map migrationLocationToMigration (List.concat filess)) /\
    StronglySorted order_lt sorted /\
    (forall other,
        Permutation other (map migrationLocationToMigration (List.concat filess)) ->
        StronglySorted order_lt other -> other = sorted) /\
    required (trace (applyAllMigrations env paths db)) = map location called /\
    subseq called sorted /\
    StronglySorted order_lt called.
Proof.
  intros Hglob Hint Hnd.
  set (found := map migrationLocationToMigration (List.concat filess)) in *.
  pose proof (sort_sorted found Hint Hnd) as Hsorted.
  destruct (applyAllMigrations_shape env paths db)
    as (dba & ta & rf & tf & _ & _ & _ & _ & _ & Hqa & _ & _ & Hlooks & _ & Hfind & ->).
  pose proof (findAllMigrations_found env paths filess db Hglob) as Hms.
  fold found in Hms.
  assert (Hrf : rf = Ok (JsArray.sort comparefn found)).
  { rewrite Hfind in Hms. exact Hms. }
  subst rf.
  destruct (looks_quiet tf Hlooks) as (_ & _ & Hqf & _).
  pose proof (apply_loop_run env (JsArray.sort comparefn found) 0%nat dba) as Hrun.
  destruct (loop_run_called _ _ _ _ _ _ _ Hrun) as (called & Hcalled & Hsub).
  exists called, (JsArray.sort comparefn found).
  split; [exact Hms|]. split; [apply sort_perm|]. split; [exact Hsorted|].
  split; [|split; [|split; [exact Hsub|]]].
  - intros other Hperm Hother. apply sorted_unique; auto.
    rewrite Hperm. symmetry. apply sort_perm.
  - destruct (apply_loop env (JsArray.sort comparefn found) 0%nat dba)
      as [[[k|e] dbl] tl]; unfold trace in *; simpl in *;
      rewrite !required_app, Hqa, Hqf, Hcalled; simpl;
      rewrite ?app_nil_r; reflexivity.
  - eapply subseq_sorted; eauto.
Qed.

End Ordering.

Lemma applyAllMigrations_ascending_witness :
  required (trace (applyAllMigrations Example.fixed ["/p1"; "/p2"] Example.empty))
  = ["/p1/10-create_users.js"; "/p2/20-add_email.js"; "/p1/30-add_index.js"] /\
  exists called sorted,
    outcome (findAllMigrations Example.fixed ["/p1"; "/p2"] Example.empty) = Ok sorted /\
    Permutation sorted
      (map migrationLocationToMigration (List.concat [Example.files1; Example.files2])) /\
    StronglySorted order_lt sorted /\
    (forall other,
        Permutation other
          (map migrationLocationToMigration
             (List.concat [Example.files1; Example.files2])) ->
        StronglySorted order_lt other -> other = sorted) /\
    required (trace (applyAllMigrations Example.fixed ["/p1"; "/p2"] Example.empty))
    = map location called /\
    subseq called sorted /\
    StronglySorted order_lt called.
Proof.
  split; [reflexivity|].
  apply (applyAllMigrations_ascending Example.fixed ["/p1"; "/p2"]
           [Example.files1; Example.files2] Example.empty).
  - repeat constructor.
  - repeat constructor.
  - repeat constructor; simpl; intuition discriminate.
Defined.

(** ** Idempotence and the report of a batch *)

Section Report.
Context {Sch : Type}.
Implicit Types (db : DB Sch) (env : Env Sch) (m : Migration).

Lemma collect_derived env paths acc db ms db' t :
  Forall (fun d => d = migrationLocationToMigration (location d)) acc ->
  collect env paths acc db = (Ok ms, db', t) ->
  Forall (fun d => d = migrationLocationToMigration (location d)) ms.
Proof.
  revert acc db t. induction paths as [|p rest IH]; intros acc db t Hacc H.
  - inversion H; subst. exact Hacc.
  - cbn [collect] in H. unfold bind at 1 in H.
    rewrite findMigrationsIn_run in H.
    destruct (glob env (p ++ "/*.js")) as [files|er]; [|discriminate].
    destruct (collect env rest _ db) as [[r2 db2] t2] eqn:Hrest.
    inversion H; subst.
    eapply IH; [|exact Hrest].
    apply Forall_app. split; [exact Hacc|].
    apply Forall_forall. intros d Hd. apply in_map_iff in Hd as (f & <- & _).
    reflexivity.
Qed.

Lemma findAllMigrations_derived env paths db ms db' t :
  findAllMigrations env paths db = (Ok ms, db', t) ->
  Forall (fun d => d = migrationLocationToMigration (location d)) ms.
Proof.
  unfold findAllMigrations, bind.
  destruct (collect env paths [] db) as [[[found|e] db1] t1] eqn:Hc; [|discriminate].
  intros H. inversion H; subst.
  apply (Permutation_Forall (x := found)); [symmetry; apply sort_perm|].
  eapply collect_derived; [constructor | exact Hc].
Qed.

Lemma loop_run_count env ms n db r db' t :
  loop_run env ms n db r db' t ->
  never is_report t = true /\ forall k, r = Ok k -> k = (n + commits t)%nat.
Proof.
  induction 1 as [n db | m rest n db Htable
                 | m rest n db r db' t Htable Hrec _ IH
                 | m rest n db e t Htable Hrec Hrun _ _ _
                 | m rest n db db1 r db' t Htable Hrec Hrun _ _ IH].
  - split; [reflexivity|]. intros k Hk. inversion Hk. unfold commits; simpl. lia.
  - split; [reflexivity | discriminate].
  - exact IH.
  - split; [|discriminate].
    rewrite _applyMigration_begin in Hrun.
    destruct (apply_body_run env m db) as (rb & dbb & tb & Hbody & Hcase).
    unfold Sql.begin in Hrun. rewrite Hbody in Hrun.
    destruct Hcase; inversion Hrun; subst; reflexivity.
  - destruct IH as [Hrep Hk]. split.
    + simpl. exact Hrep.
    + intros k Hok. rewrite (Hk k Hok).
      change (Select (name m) :: applied_trace m ++ t)%list
        with ((Select (name m) :: applied_trace m) ++ t)%list.
      rewrite commits_app. unfold commits at 2; simpl. lia.
Qed.

Lemma never_app p t1 t2 : never p (t1 ++ t2) = never p t1 && never p t2.
Proof. unfold never. apply forallb_app. Qed.

(** C7 (amended): [applyAllMigrations] returns no value.  When the batch
    runs to its end the call returns [undefined] and its last action is to
    log the count of the migrations that committed during the run
    ([Applied n migrations], or [No new migrations to apply] when the count
    is zero); when an error stops the batch the error is all the caller gets
    and no count is reported. *)
Theorem applyAllMigrations_reports env paths db r db' t :
  applyAllMigrations env paths db = (r, db', t) ->
  match r with
  | Ok v =>
      v = VUndefined /\
      exists t0, t = (t0 ++ [Log (report (commits t))])%list /\
                 never is_report t0 = true
  | Err e => never is_report t = true
  end.
Proof.
  destruct (applyAllMigrations_shape env paths db)
    as (dba & ta & rf & tf & _ & _ & _ & Hca & _ & _ & Hra & _ & Hlooks & Hrf & _ & ->).
  destruct (looks_quiet tf Hlooks) as (Hcf & _).
  destruct rf as [ms|e].
  - pose proof (apply_loop_run env ms 0%nat dba) as Hrun.
    apply loop_run_count in Hrun as [Hrl Hk].
    destruct (apply_loop env ms 0%nat dba) as [[[k|e] dbl] tl];
      unfold trace, outcome in *; simpl in *; intros H; inversion H; subst.
    + split; [reflexivity|].
      exists (ta ++ tf ++ tl)%list. split.
      * rewrite !commits_app, Hca, Hcf. unfold commits at 2; simpl.
        rewrite (Hk k eq_refl), Nat.add_0_r.
        now rewrite <- !app_assoc.
      * now rewrite !never_app, Hra, Hrf, Hrl.
    + now rewrite !never_app, Hra, Hrf, Hrl.
  - intros H; inversion H; subst. now rewrite never_app, Hra, Hrf.
Qed.


End Report.

(** C7 as stated fails: three migrations commit and the call returns
    [undefined], not their count; and when unit 20 breaks the batch after one
    commit, the caller gets the error and no count is logged either. *)
Lemma applyAllMigrations_returns_no_count :
  outcome (applyAllMigrations Example.fixed ["/p1"; "/p2"] Example.empty)
  = Ok VUndefined /\
  commits (trace (applyAllMigrations Example.fixed ["/p1"; "/p2"] Example.empty))
  = 3%nat /\
  VUndefined <> VNumber (Int 3) /\
  outcome (applyAllMigrations Example.broken ["/p1"; "/p2"] Example.empty)
  = Err (Thrown "boom") /\
  commits (trace (applyAllMigrations Example.broken ["/p1"; "/p2"] Example.empty))
  = 1%nat /\
  never is_report (trace (applyAllMigrations Example.broken ["/p1"; "/p2"] Example.empty))
  = true.
Proof. repeat split; try reflexivity. discriminate. Qed.

Lemma applyAllMigrations_reports_witness :
  exists t0,
    trace (applyAllMigrations Example.fixed ["/p1"; "/p2"] Example.empty)
    = (t0 ++ [Log "Applied 3 migrations"])%list /\
    never is_report t0 = true.
Proof.
  destruct (applyAllMigrations Example.fixed ["/p1"; "/p2"] Example.empty)
    as [[r db'] t] eqn:Hrun.
  pose proof (applyAllMigrations_reports Example.fixed ["/p1"; "/p2"] Example.empty
                r db' t Hrun) as H.
  assert (Hr : r = Ok VUndefined).
  { apply (f_equal outcome) in Hrun. vm_compute in Hrun. now inversion Hrun. }
  assert (Hc : commits t = 3%nat).
  { apply (f_equal (fun x => commits (trace x))) in Hrun. vm_compute in Hrun.
    now inversion Hrun. }
  rewrite Hr in H. destruct H as (_ & t0 & Ht & Hrep).
  rewrite Hc in Ht. exists t0. split; [exact Ht | exact Hrep].
Defined.


(** ** Names and order keys *)

Import Described.

Section Names.

Lemma len_app a b : len (a ++ b) = len a + len b.
Proof.
  unfold len. induction a as [|x a IH]; [reflexivity|].
  cbn [String.append String.length]. rewrite !Nat2Z.inj_succ. lia.
Qed.

Lemma append_assoc (a b c : string) : (a ++ b) ++ c = a ++ (b ++ c).
Proof. induction a as [|x a IH]; simpl; [reflexivity | now rewrite IH]. Qed.

Lemma len_nonneg s : 0 <= len s.
Proof. unfold len. lia. Qed.

Lemma contains_app c a b : contains c (a ++ b) = contains c a || contains c b.
Proof.
  induction a as [|x a IH]; simpl; [reflexivity|].
  now rewrite IH, orb_assoc.
Qed.

Lemma lastIndexOf_from_spec c s i acc :
  lastIndexOf_from c s i acc
  = if contains c s then i + lastIndexOf c s else acc.
Proof.
  unfold lastIndexOf. revert i acc.
  induction s as [|a s IH]; intros i acc; simpl; [reflexivity|].
  rewrite (IH (i + 1)), (IH (0 + 1)).
  generalize (lastIndexOf_from c s 0 (-1)). intros L.
  destruct (Ascii.eqb a c), (contains c s); cbn [orb]; lia.
Qed.

Lemma lastIndexOf_none c s : contains c s = false -> lastIndexOf c s = -1.
Proof.
  intros H. unfold lastIndexOf. now rewrite lastIndexOf_from_spec, H.
Qed.

Lemma lastIndexOf_from_app c a b i acc :
  lastIndexOf_from c (a ++ b) i acc
  = lastIndexOf_from c b (i + len a) (lastIndexOf_from c a i acc).
Proof.
  revert i acc. induction a as [|x a IH]; intros i acc; simpl.
  - unfold len; simpl. now rewrite Z.add_0_r.
  - rewrite IH. f_equal. unfold len. cbn [String.length].
    rewrite Nat2Z.inj_succ. lia.
Qed.

(** The last [c] of [bl ++ c :: al], with no [c] in [al], sits right after
    [bl]. *)
Lemma lastIndexOf_last c bl al :
  contains c al = false -> lastIndexOf c (bl ++ String c al) = len bl.
Proof.
  intros H. unfold lastIndexOf. rewrite lastIndexOf_from_app. simpl.
  rewrite Ascii.eqb_refl, lastIndexOf_from_spec, H. lia.
Qed.

Lemma split_last c s :
  contains c s = true ->
  s = before_last c s ++ String c (after_last c s) /\
  contains c (after_last c s) = false.
Proof.
  induction s as [|a s IH]; simpl; [discriminate|].
  destruct (contains c s) eqn:Hs.
  - intros _. destruct (IH eq_refl) as [Heq Hno]. split; [|exact Hno].
    simpl. now rewrite <- Heq.
  - rewrite orb_false_r. intros Ha. rewrite Ha.
    apply Ascii.eqb_eq in Ha. subst a. now split.
Qed.

Lemma no_last c s :
  contains c s = false -> after_last c s = s /\ before_last c s = s.
Proof.
  destruct s as [|a s]; simpl; [now split|].
  intros H. apply orb_false_iff in H as [Ha Hs]. now rewrite Hs, Ha.
Qed.

Lemma substring_skip a b m :
  String.substring (String.length a) m (a ++ b) = String.substring 0 m b.
Proof. induction a as [|x a IH]; simpl; [reflexivity | exact IH]. Qed.

Lemma substring_prefix a b :
  String.substring 0 (String.length a) (a ++ b) = a.
Proof.
  induction a as [|x a IH]; simpl.
  - now destruct b.
  - now rewrite IH.
Qed.

Lemma substring_drop_last s :
  String.substring 0 (String.length s - 1) s = drop_last s.
Proof.
  induction s as [|a s IH]; [reflexivity|].
  destruct s as [|b s]; [reflexivity|].
  replace (String.length (String a (String b s)) - 1)%nat
    with (Datatypes.S (String.length (String b s) - 1))
    by (cbn [String.length]; lia).
  change (String.substring 0 (Datatypes.S (String.length (String b s) - 1))
            (String a (String b s)))
    with (String a (String.substring 0 (String.length (String b s) - 1) (String b s))).
  rewrite IH. reflexivity.
Qed.

Lemma drop_last_short s : (String.length s <= 1)%nat -> drop_last s = EmptyString.
Proof.
  destruct s as [|a [|b s]]; simpl; auto. lia.
Qed.

(** A location is its directory part, up to and including the last [/],
    followed by its basename; [lastIndexOf] finds where the basename
    starts. *)
Lemma basename_split loc :
  exists dir,
    loc = dir ++ basename loc /\
    contains "/" (basename loc) = false /\
    lastIndexOf "/" loc + 1 = len dir.
Proof.
  unfold basename. destruct (contains "/" loc) eqn:H.
  - destruct (split_last "/" loc H) as [Heq Hno].
    exists (before_last "/" loc ++ "/"). split; [|split].
    + rewrite append_assoc. exact Heq.
    + exact Hno.
    + rewrite Heq at 1. rewrite (lastIndexOf_last _ _ _ Hno), len_app.
      reflexivity.
  - destruct (no_last "/" loc H) as [-> _].
    exists EmptyString. split; [reflexivity|]. split; [exact H|].
    now rewrite (lastIndexOf_none _ _ H).
Qed.

Lemma clamp_in n i : 0 <= i <= n -> clamp n i = i.
Proof.
  intros H. unfold clamp. destruct (Z.ltb_spec i 0); lia.
Qed.

Lemma to_nat_len s : Z.to_nat (len s) = String.length s.
Proof. unfold len. apply Nat2Z.id. Qed.

Lemma len_zero s : len s <= 0 -> s = EmptyString.
Proof.
  destruct s; [reflexivity|]. unfold len. cbn [String.length].
  rewrite Nat2Z.inj_succ. lia.
Qed.

(** Slicing out the middle of three pieces. *)
Lemma slice_middle a b c :
  slice (a ++ b ++ c) (len a) (len a + len b) = b.
Proof.
  unfold slice. rewrite !len_app.
  pose proof (len_nonneg a). pose proof (len_nonneg b). pose proof (len_nonneg c).
  rewrite !clamp_in by lia.
  destruct (Z.leb_spec (len a + len b) (len a)) as [Hle|Hlt].
  - symmetry. apply len_zero. lia.
  - replace (len a + len b - len a) with (len b) by lia.
    now rewrite !to_nat_len, substring_skip, substring_prefix.
Qed.

(** Slicing backwards yields nothing. *)
Lemma slice_backwards s from to :
  0 <= to <= from -> from <= len s -> slice s from to = EmptyString.
Proof.
  intros H1 H2. unfold slice. rewrite !clamp_in by lia.
  destruct (Z.leb_spec to from); [reflexivity | lia].
Qed.

(** Slicing from the basename's start up to [-1] drops the final
    character. *)
Lemma slice_to_last dir base :
  slice (dir ++ base) (len dir) (-1) = drop_last base.
Proof.
  unfold slice. rewrite !len_app.
  pose proof (len_nonneg dir). pose proof (len_nonneg base).
  rewrite (clamp_in _ (len dir)) by lia.
  replace (clamp (len dir + len base) (-1))
    with (Z.max (len dir + len base + -1) 0) by reflexivity.
  destruct (Z.leb_spec (Z.max (len dir + len base + -1) 0) (len dir)) as [Hle|Hlt].
  - symmetry. apply drop_last_short.
    unfold len in *. lia.
  - replace (Z.max (len dir + len base + -1) 0 - len dir) with (len base - 1) by lia.
    rewrite to_nat_len, substring_skip.
    replace (Z.to_nat (len base - 1)) with (String.length base - 1)%nat
      by (unfold len; lia).
    apply substring_drop_last.
Qed.

(** The name the code slices out is the name of the description. *)
Lemma name_derived loc :
  name (migrationLocationToMigration loc) = derived_name loc.
Proof.
  unfold migrationLocationToMigration. cbn [name].
  destruct (basename_split loc) as (dir & Hloc & Hslash & Hstart).
  rewrite Hstart. unfold derived_name.
  destruct (contains "." (basename loc)) eqn:Hbase.
  - destruct (split_last "." _ Hbase) as [Heq Hno].
    assert (Hdot : lastIndexOf "." loc = len dir + len (before_last "." (basename loc))).
    { rewrite Hloc at 1. rewrite Heq at 1. rewrite <- append_assoc.
      rewrite (lastIndexOf_last _ _ _ Hno). apply len_app. }
    rewrite Hdot. rewrite Hloc at 1. rewrite Heq at 1.
    apply slice_middle.
  - destruct (contains "." loc) eqn:Hany.
    + assert (Hdir : contains "." dir = true).
      { rewrite Hloc, contains_app, Hbase, orb_false_r in Hany. exact Hany. }
      destruct (split_last "." _ Hdir) as [Heq Hno].
      assert (Hdot : lastIndexOf "." loc = len (before_last "." dir)).
      { rewrite Hloc at 1. rewrite Heq at 1. rewrite append_assoc.
        cbn [String.append].
        apply lastIndexOf_last. now rewrite contains_app, Hno, Hbase. }
      rewrite Hdot. apply slice_backwards.
      * pose proof (len_nonneg (before_last "." dir)).
        pose proof (len_nonneg (String "." (after_last "." dir))).
        assert (len dir = len (before_last "." dir)
                          + len (String "." (after_last "." dir)))
          by (now rewrite <- len_app, <- Heq).
        lia.
      * rewrite Hloc at 1. rewrite len_app.
        pose proof (len_nonneg (basename loc)). lia.
    + rewrite (lastIndexOf_none _ _ Hany). rewrite Hloc at 1.
      apply slice_to_last.
Qed.

End Names.

Section OrderKeys.

Lemma decimal_zero c : Ascii.eqb c "0" = true -> is_decimal c = true.
Proof. intros H. apply Ascii.eqb_eq in H. now subst c. Qed.

Lemma strip_prefix_nondecimal c r :
  is_decimal c = false -> strip_prefix (String c r) = (10, String c r).
Proof.
  intros H. unfold strip_prefix. destruct r as [|c1 r]; [reflexivity|].
  destruct (Ascii.eqb c "0") eqn:E; [|reflexivity].
  apply decimal_zero in E. congruence.
Qed.

Lemma digits_nondecimal c r acc :
  is_decimal c = false -> digits 10 (String c r) acc = acc.
Proof.
  unfold is_decimal. cbn [digits]. now destruct (digit 10 c).
Qed.

Lemma parseInt_tail s :
  match s with
  | EmptyString => True
  | String c _ => is_decimal c = false
  end ->
  (let '(radix, s3) := strip_prefix s in digits radix s3 None) = None.
Proof.
  destruct s as [|c r]; [reflexivity|]. intros H.
  rewrite (strip_prefix_nondecimal c r H). now apply digits_nondecimal.
Qed.

(** Without a decimal digit behind the white space and the sign there is
    nothing to parse. *)
Lemma parseInt_not_numeric s : numeric_start s = false -> parseInt s = NaN.
Proof.
  unfold numeric_start, parseInt.
  destruct (trimStart s) as [|c r]; [reflexivity|].
  unfold strip_sign.
  destruct (Ascii.eqb c "-") eqn:Hm; cbn [orb].
  { intros H.
    pose proof (parseInt_tail r) as Ht.
    destruct (strip_prefix r) as [radix s3].
    rewrite Ht; [reflexivity|]. now destruct r. }
  destruct (Ascii.eqb c "+") eqn:Hp.
  { intros H.
    pose proof (parseInt_tail r) as Ht.
    destruct (strip_prefix r) as [radix s3].
    rewrite Ht; [reflexivity|]. now destruct r. }
  intros H.
  pose proof (parseInt_tail (String c r) H) as Ht.
  destruct (strip_prefix (String c r)) as [radix s3].
  now rewrite Ht.
Qed.

Lemma digits_halts rest acc :
  digit_start rest = false -> digits 10 rest acc = acc.
Proof.
  destruct rest as [|c r]; [reflexivity|]. cbn [digit_start].
  apply digits_nondecimal.
Qed.

Lemma stops_digit_start rest : stops rest = true -> digit_start rest = false.
Proof.
  destruct rest as [|c r]; [reflexivity|]. unfold stops, digit_start.
  intros H. apply andb_true_iff in H as [H _]. apply andb_true_iff in H as [H _].
  now destruct (is_decimal c).
Qed.

Lemma digits_stops rest acc : stops rest = true -> digits 10 rest acc = acc.
Proof. intros H. now apply digits_halts, stops_digit_start. Qed.

Lemma digits_step c k r acc :
  digit 10 c = Some k ->
  digits 10 (String c r) acc
  = digits 10 r (Some (10 * match acc with Some v => v | None => 0 end + k)).
Proof. intros H. cbn [digits]. now rewrite H. Qed.

Ltac read_digit :=
  cbn [NilEmpty.string_of_uint String.append];
  match goal with
  | |- context [digits 10 (String ?c ?r) ?acc] =>
      let k := eval vm_compute in (digit 10 c) in
      match k with
      | Some ?v => rewrite (digits_step c v r acc) by reflexivity
      end
  end.

Lemma digits_run_acc rest d acc :
  digit_start rest = false ->
  digits 10 (NilEmpty.string_of_uint d ++ rest) (Some (Z.pos acc))
  = Some (Z.pos (Pos.of_uint_acc d acc)).
Proof.
  intros Hstop. revert acc.
  induction d as [|d IH|d IH|d IH|d IH|d IH|d IH|d IH|d IH|d IH|d IH];
    intros acc;
    [now apply digits_halts|..];
    read_digit; cbn [Pos.of_uint_acc]; rewrite <- IH; do 2 f_equal; lia.
Qed.

(** The digits of a run are read by Horner's rule, leading zeros included:
    what comes out is the number the run writes. *)
Lemma digits_run rest d acc :
  digit_start rest = false -> d <> Decimal.Nil -> acc = None \/ acc = Some 0 ->
  digits 10 (digit_run d ++ rest) acc = Some (run_value d).
Proof.
  unfold digit_run, run_value, N.of_uint.
  intros Hstop. revert acc.
  induction d as [|d IH|d IH|d IH|d IH|d IH|d IH|d IH|d IH|d IH|d IH];
    intros acc Hd Hacc; [congruence|..];
    read_digit; cbn [Pos.of_uint];
    try (destruct Hacc as [-> | ->];
         apply (digits_run_acc rest d _ Hstop)).
  destruct (Decimal.uint_eq_dec d Decimal.Nil) as [-> | Hne].
  - destruct Hacc as [-> | ->]; now apply digits_halts.
  - apply IH; [exact Hne|]. right. destruct Hacc as [-> | ->]; reflexivity.
Qed.

Lemma nzhead_nonzero d l : Decimal.nzhead d <> Decimal.D0 l.
Proof. induction d; simpl; try discriminate; assumption. Qed.

(** A numeral has no leading zero: one that starts with [0] is [0]. *)
Lemma numeral_zero n l : N.to_uint n = Decimal.D0 l -> l = Decimal.Nil.
Proof.
  intros H.
  pose proof (DecimalN.Unsigned.to_of (N.to_uint n)) as Hnorm.
  rewrite DecimalN.Unsigned.of_to, H in Hnorm.
  unfold Decimal.unorm in Hnorm. cbn [Decimal.nzhead] in Hnorm.
  destruct (Decimal.nzhead l) eqn:E; try (now inversion Hnorm);
    try (rewrite <- E in Hnorm; symmetry in Hnorm; now apply nzhead_nonzero in Hnorm).
Qed.

Lemma numeral_not_nil n : N.to_uint n <> Decimal.Nil.
Proof.
  intros H. pose proof (DecimalN.Unsigned.of_to n) as Hn. rewrite H in Hn.
  cbn in Hn. subst n. discriminate.
Qed.

Lemma strip_prefix_nonzero c r :
  Ascii.eqb c "0" = false -> strip_prefix (String c r) = (10, String c r).
Proof.
  intros H. unfold strip_prefix. destruct r; [reflexivity|]. now rewrite H.
Qed.

Lemma strip_prefix_zero rest :
  stops rest = true -> strip_prefix (String "0" rest) = (10, String "0" rest).
Proof.
  destruct rest as [|c r]; [reflexivity|]. unfold stops, strip_prefix.
  intros H. apply andb_true_iff in H as [H HX]. apply andb_true_iff in H as [_ Hx].
  destruct (Ascii.eqb c "x"); [discriminate|].
  destruct (Ascii.eqb c "X"); [discriminate|]. reflexivity.
Qed.

(** Nothing is stripped off a run of digits: it starts with a digit, and a
    leading [0] is followed by [x] only if the run is that [0] alone. *)
Lemma run_unstripped d rest :
  d <> Decimal.Nil ->
  (d = Decimal.D0 Decimal.Nil -> stops rest = true) ->
  trimStart (digit_run d ++ rest) = digit_run d ++ rest /\
  strip_sign (digit_run d ++ rest) = (1, digit_run d ++ rest) /\
  strip_prefix (digit_run d ++ rest) = (10, digit_run d ++ rest).
Proof.
  intros Hnil Hzero. unfold digit_run.
  destruct d as [|d|d|d|d|d|d|d|d|d|d]; [congruence|..];
    cbn [NilEmpty.string_of_uint String.append];
    (split; [reflexivity|]); (split; [reflexivity|]);
    try (now apply strip_prefix_nonzero).
  destruct d; cbn [NilEmpty.string_of_uint String.append];
    try reflexivity.
  now apply strip_prefix_zero, Hzero.
Qed.

(** A name that starts with a run of decimal digits has, as its order key,
    the double of the number the run writes. *)
Lemma parseInt_run d rest :
  d <> Decimal.Nil ->
  digit_start rest = false ->
  (d = Decimal.D0 Decimal.Nil -> stops rest = true) ->
  parseInt (digit_run d ++ rest) = to_double (run_value d).
Proof.
  intros Hnil Hstop Hzero.
  destruct (run_unstripped d rest Hnil Hzero) as (Htrim & Hsign & Hprefix).
  unfold parseInt. rewrite Htrim, Hsign, Hprefix.
  rewrite (digits_run rest d None Hstop Hnil (or_introl eq_refl)).
  now rewrite Z.mul_1_l.
Qed.

(** The doubles are exact up to 2^53, that power included. *)
Lemma to_double_exact z : Z.abs z <= 2 ^ 53 -> to_double z = Int z.
Proof.
  intros H.
  destruct (Z.eq_dec (Z.abs z) (2 ^ 53)) as [E|E].
  - destruct (Z.abs_eq_or_opp z) as [Hz|Hz]; rewrite Hz in E.
    + subst z. reflexivity.
    + assert (z = - 2 ^ 53) as -> by lia. reflexivity.
  - apply to_double_small. lia.
Qed.

(** A name that starts with the decimal numeral of [n] has the double of [n]
    as its order key. *)
Lemma parseInt_decimal n rest :
  stops rest = true -> parseInt (decimal n ++ rest) = to_double (Z.of_N n).
Proof.
  intros Hstop.
  change (decimal n) with (digit_run (N.to_uint n)).
  rewrite parseInt_run.
  - unfold run_value. now rewrite DecimalN.Unsigned.of_to.
  - apply numeral_not_nil.
  - now apply stops_digit_start.
  - intros _. exact Hstop.
Qed.

End OrderKeys.

Section Descriptors.
Context {Sch : Type}.
Implicit Types (db : DB Sch) (env : Env Sch).

(** C10 (amended): every location yields a descriptor, with no failure.
    Its name is the basename (the text after the last [/]) up to the
    basename's last [.]; it is empty when only the directory part has a [.];
    and for a location with no [.] at all it is the basename without its
    final character.  Its order is [parseInt] of the name: [NaN] when the
    name, after leading white space and one optional sign, does not begin
    with a decimal digit; and when the name begins with a run of decimal
    digits, leading zeros included, that no further digit follows (and, if
    the run is the single digit [0], no [x] or [X] either), the double
    nearest to the number the run writes, which up to 2^53 is that number
    itself. *)
Theorem migrationLocationToMigration_descriptor loc :
  location (migrationLocationToMigration loc) = loc /\
  name (migrationLocationToMigration loc) = derived_name loc /\
  order (migrationLocationToMigration loc) = parseInt (derived_name loc) /\
  (contains "." loc = false ->
   name (migrationLocationToMigration loc) = drop_last (basename loc)) /\
  (numeric_start (derived_name loc) = false ->
   order (migrationLocationToMigration loc) = NaN) /\
  (forall d rest,
      derived_name loc = digit_run d ++ rest ->
      d <> Decimal.Nil ->
      digit_start rest = false ->
      (d = Decimal.D0 Decimal.Nil -> stops rest = true) ->
      order (migrationLocationToMigration loc) = to_double (run_value d) /\
      (run_value d <= 2 ^ 53 ->
       order (migrationLocationToMigration loc) = Int (run_value d))).
Proof.
  pose proof (name_derived loc) as Hname.
  assert (Horder : order (migrationLocationToMigration loc)
                   = parseInt (derived_name loc)).
  { rewrite <- Hname. reflexivity. }
  split; [reflexivity|]. split; [exact Hname|]. split; [exact Horder|].
  split; [|split].
  - intros Hdot. rewrite Hname. unfold derived_name. rewrite Hdot.
    destruct (basename_split loc) as (dir & Hloc & _ & _).
    rewrite Hloc, contains_app in Hdot. apply orb_false_iff in Hdot as [_ Hbase].
    now rewrite Hbase.
  - intros Hnot. rewrite Horder. now apply parseInt_not_numeric.
  - intros d rest Heq Hnil Hstop Hzero.
    assert (Hrun : order (migrationLocationToMigration loc)
                   = to_double (run_value d)).
    { rewrite Horder, Heq. now apply parseInt_run. }
    split; [exact Hrun|].
    intros Hsafe. rewrite Hrun. apply to_double_exact.
    unfold run_value in *. lia.
Qed.

(** C5 (amended): a file whose name carries no parsable order key does not
    make discovery fail: [findMigrationsIn] returns one descriptor per file
    the glob listed, in the glob's order, and that file's descriptor is
    among them with order [NaN]; the key is not turned into a number and the
    entry is not skipped.  [findAllMigrations] keeps it as well. *)
Theorem findMigrationsIn_keeps_unparsable env dir files db :
  glob env (dir ++ "/*.js") = Ok files ->
  findMigrationsIn env dir db
  = (Ok (map migrationLocationToMigration files), db, [Glob (dir ++ "/*.js")]) /\
  List.length (map migrationLocationToMigration files) = List.length files /\
  (forall f,
      In f files ->
      parseInt (name (migrationLocationToMigration f)) = NaN ->
      In (mkMigration NaN f (name (migrationLocationToMigration f)))
        (map migrationLocationToMigration files) /\
      forall paths filess,
        Forall2 (fun p fs => glob env (p ++ "/*.js") = Ok fs) paths filess ->
        In files filess ->
        exists ms,
          outcome (findAllMigrations env paths db) = Ok ms /\
          In (mkMigration NaN f (name (migrationLocationToMigration f))) ms).
Proof.
  intros Hglob. split; [|split].
  - now rewrite findMigrationsIn_run, Hglob.
  - apply length_map.
  - intros f Hf Hnan.
    assert (Hd : migrationLocationToMigration f
                 = mkMigration NaN f (name (migrationLocationToMigration f))).
    { unfold migrationLocationToMigration in *. cbn [name] in *. now rewrite Hnan. }
    split.
    + rewrite <- Hd. now apply in_map.
    + intros paths filess Hall Hin.
      eexists. split; [now apply findAllMigrations_found with (filess := filess)|].
      eapply Permutation_in; [symmetry; apply sort_perm|].
      rewrite <- Hd. apply in_map. apply in_concat. eauto.
Qed.

End Descriptors.

Lemma migrationLocationToMigration_descriptor_witness :
  contains "." "migrations/10-foo" = false /\
  name (migrationLocationToMigration "migrations/10-foo") = "10-fo" /\
  numeric_start (derived_name "/p3/add_index.js") = false /\
  order (migrationLocationToMigration "/p3/add_index.js") = NaN /\
  derived_name "/m/001-init.js"
  = digit_run (Decimal.D0 (Decimal.D0 (Decimal.D1 Decimal.Nil))) ++ "-init" /\
  digit_start "-init" = false /\
  run_value (Decimal.D0 (Decimal.D0 (Decimal.D1 Decimal.Nil))) <= 2 ^ 53 /\
  order (migrationLocationToMigration "/m/001-init.js") = Int 1 /\
  derived_name "/b/9007199254740993-second.js"
  = digit_run (N.to_uint 9007199254740993) ++ "-second" /\
  digit_start "-second" = false /\
  order (migrationLocationToMigration "/b/9007199254740993-second.js")
  = Int 9007199254740992.
Proof.
  split; [reflexivity|]. split.
  { apply (migrationLocationToMigration_descriptor "migrations/10-foo"). reflexivity. }
  split; [reflexivity|]. split.
  { apply (migrationLocationToMigration_descriptor "/p3/add_index.js"). reflexivity. }
  split; [reflexivity|]. split; [reflexivity|].
  split; [vm_compute; discriminate|]. split.
  { destruct (migrationLocationToMigration_descriptor "/m/001-init.js")
      as (_ & _ & _ & _ & _ & Hrun).
    refine (proj2 (Hrun (Decimal.D0 (Decimal.D0 (Decimal.D1 Decimal.Nil)))
                     "-init" eq_refl _ eq_refl _) _).
    - discriminate.
    - discriminate.
    - vm_compute; discriminate. }
  split; [reflexivity|]. split; [reflexivity|].
  destruct (migrationLocationToMigration_descriptor "/b/9007199254740993-second.js")
    as (_ & _ & _ & _ & _ & Hrun).
  refine (proj1 (Hrun (N.to_uint 9007199254740993) "-second" eq_refl _ eq_refl _)).
  - discriminate.
  - discriminate.
Defined.

(** C10 as stated fails: the name [-5-x] does not begin with a decimal digit,
    yet its order is the number [-5]; and the leading digits of [0x1F-x] are
    [0], yet its order is [31]. *)
Lemma signed_name_has_numeric_order :
  name (migrationLocationToMigration "/m/-5-x.js") = "-5-x" /\
  is_decimal "-" = false /\
  order (migrationLocationToMigration "/m/-5-x.js") = Int (-5) /\
  order (migrationLocationToMigration "/m/-5-x.js") <> NaN /\
  name (migrationLocationToMigration "/m/0x1F-x.js") = "0x1F-x" /\
  order (migrationLocationToMigration "/m/0x1F-x.js") = Int 31.
Proof. repeat split; try reflexivity. discriminate. Qed.

Lemma findMigrationsIn_keeps_unparsable_witness :
  glob Example.fixed ("/p3" ++ "/*.js") = Ok Example.files3 /\
  In (mkMigration NaN "/p3/add_index.js" "add_index")
    (map migrationLocationToMigration Example.files3).
Proof.
  split; [reflexivity|].
  destruct (findMigrationsIn_keeps_unparsable Example.fixed "/p3" Example.files3
              Example.fresh eq_refl) as (_ & _ & Hkept).
  apply (Hkept "/p3/add_index.js").
  - now left.
  - reflexivity.
Defined.

(** C5 as stated fails: the file [/p3/add_index.js] has no order key, and
    discovery neither fails nor raises: it returns the descriptor with order
    [NaN], alone and next to the descriptors of another root. *)
Lemma unparsable_key_is_discovered :
  parseInt "add_index" = NaN /\
  findMigrationsIn Example.fixed "/p3" Example.fresh
  = (Ok [mkMigration NaN "/p3/add_index.js" "add_index"], Example.fresh,
     [Glob "/p3/*.js"]) /\
  outcome (findAllMigrations Example.fixed ["/p2"; "/p3"] Example.fresh)
  = Ok [mkMigration (Int 20) "/p2/20-add_email.js" "20-add_email";
        mkMigration NaN "/p3/add_index.js" "add_index"] /\
  (forall e, outcome (findAllMigrations Example.fixed ["/p2"; "/p3"] Example.fresh)
             <> Err e).
Proof.
  split; [reflexivity|]. split; [reflexivity|]. split; [reflexivity|].
  intros e. vm_compute. discriminate.
Qed.


(** * Further properties of the module *)

(** ** The single-unit commands on an existing file *)

Section SingleUnit.
Context {Sch : Type}.
Implicit Types (db : DB Sch) (env : Env Sch) (m : Migration).

Lemma applyMigration_exists env loc db :
  existsSync env loc = true ->
  applyMigration env loc db
  = match migrations db with
    | None =>
        (Err UndefinedTable, db,
         [ExistsSync loc; Select (name (migrationLocationToMigration loc))])
    | Some _ =>
        if recorded db (name (migrationLocationToMigration loc)) then
          (Ok VUndefined, db,
           [ExistsSync loc; Select (name (migrationLocationToMigration loc));
            Log ("Run aborted. " ++ loc ++ " has already been applied")])
        else
          let '(r, db', t) := _applyMigration env (migrationLocationToMigration loc) db in
          (match r with Ok _ => Ok VUndefined | Err e => Err e end, db',
           ExistsSync loc :: Select (name (migrationLocationToMigration loc)) :: t)
    end.
Proof.
  intros Hfile. set (m := migrationLocationToMigration loc).
  unfold applyMigration. fold m. unfold bind at 1. unfold emit at 1.
  rewrite Hfile. cbn [negb]. unfold bind at 1.
  destruct (migrations db) as [rows|] eqn:Htable.
  - rewrite (hasBeenRun_run m db rows Htable).
    destruct (recorded db (name m)); cbn [negb]; [reflexivity|].
    unfold bind at 1.
    destruct (_applyMigration env m db) as [[[b|e] db'] t]; [|reflexivity].
    unfold ret. simpl. now rewrite app_nil_r.
  - now rewrite (hasBeenRun_no_table m db Htable).
Qed.

Lemma revertMigration_exists env loc db :
  existsSync env loc = true ->
  revertMigration env loc db
  = match migrations db with
    | None =>
        (Err UndefinedTable, db,
         [ExistsSync loc; Select (name (migrationLocationToMigration loc))])
    | Some _ =>
        if recorded db (name (migrationLocationToMigration loc)) then
          let '(r, db', t) :=
            Sql.begin (revert_body env (migrationLocationToMigration loc)) db in
          (match r with Ok _ => Ok VUndefined | Err e => Err e end, db',
           ExistsSync loc :: Select (name (migrationLocationToMigration loc)) :: t)
        else
          (Ok VUndefined, db,
           [ExistsSync loc; Select (name (migrationLocationToMigration loc));
            Log ("Revert aborted because no migration with name="
                 ++ name (migrationLocationToMigration loc)
                 ++ " found in migrations table")])
    end.
Proof.
  intros Hfile. set (m := migrationLocationToMigration loc).
  unfold revertMigration. fold m. unfold bind at 1. unfold emit at 1.
  rewrite Hfile. cbn [negb]. unfold bind at 1.
  destruct (migrations db) as [rows|] eqn:Htable.
  - rewrite (hasBeenRun_run m db rows Htable).
    destruct (recorded db (name m)); cbn [negb]; [|reflexivity].
    unfold bind at 1. fold (revert_body env m).
    destruct (Sql.begin (revert_body env m) db) as [[[b|e] db'] t]; [|reflexivity].
    unfold ret. simpl. now rewrite app_nil_r.
  - now rewrite (hasBeenRun_no_table m db Htable).
Qed.

(** The ways the revert transaction can end. *)
Lemma revert_cases env m db :
  (exists e t,
      Sql.begin (revert_body env m) db = (Err e, db, t) /\
      commits t = 0%nat /\
      exists body, t = (Begin :: body ++ [Rollback])%list /\
                   never is_boundary body = true) \/
  (exists code dbd rows,
      require env (location m) = Ok code /\
      down code db = (Ok tt, dbd) /\
      migrations dbd = Some rows /\
      Sql.begin (revert_body env m) db
      = (Ok tt, mkDB (Some (without (name m) rows)) (schema dbd), reverted_trace m)).
Proof.
  unfold Sql.begin, revert_body, bind, log, emit, load, throw, ret, call, Sql.delete.
  destruct (require env (location m)) as [code|e] eqn:Hreq; simpl.
  - destruct (down code db) as [[[]|e] dbd] eqn:Hdown; simpl.
    + destruct (migrations dbd) as [rows|] eqn:Hrows; simpl.
      * right. exists code, dbd, rows. repeat split; assumption.
      * left. do 2 eexists. split; [reflexivity|]. split; [reflexivity|].
        eexists [_; _; _; _]. split; reflexivity.
    + left. do 2 eexists. split; [reflexivity|]. split; [reflexivity|].
      eexists [_; _; _]. split; reflexivity.
  - left. do 2 eexists. split; [reflexivity|]. split; [reflexivity|].
    eexists [_; _]. split; reflexivity.
Qed.

Lemma without_absent n rows : existsb (String.eqb n) (without n rows) = false.
Proof.
  unfold without. induction rows as [|r rows IH]; [reflexivity|].
  simpl. destruct (String.eqb n r) eqn:E; simpl; [exact IH|]. now rewrite E.
Qed.

(** X1: on an existing file [applyMigration] either returns with the
    migration recorded or raises with the database as it was; and when the
    migration is already recorded it changes nothing, opens no transaction
    and only logs that the run was aborted. *)
Theorem applyMigration_postcondition env loc db :
  existsSync env loc = true ->
  match outcome (applyMigration env loc db) with
  | Ok _ =>
      recorded (final (applyMigration env loc db))
        (name (migrationLocationToMigration loc)) = true
  | Err _ => final (applyMigration env loc db) = db
  end /\
  (recorded db (name (migrationLocationToMigration loc)) = true ->
   applyMigration env loc db
   = (Ok VUndefined, db,
      [ExistsSync loc; Select (name (migrationLocationToMigration loc));
       Log ("Run aborted. " ++ loc ++ " has already been applied")])).
Proof.
  intros Hfile. rewrite (applyMigration_exists env loc db Hfile).
  set (m := migrationLocationToMigration loc).
  destruct (migrations db) as [rows|] eqn:Htable.
  - destruct (recorded db (name m)) eqn:Hrec.
    + split; [exact Hrec | reflexivity].
    + split; [|discriminate].
      destruct (_applyMigration_cases env m db)
        as [(e & t & -> & _) | (code & dbu & rows' & _ & _ & _ & _ & ->)].
      * reflexivity.
      * unfold outcome, final, recorded; simpl.
        rewrite existsb_app; simpl. now rewrite String.eqb_refl, orb_true_r.
  - split; [reflexivity|]. unfold recorded. rewrite Htable. discriminate.
Qed.

(** X2: the revert of a recorded migration runs the unit's [down] and the
    deletion of its row inside one transaction.  When the call returns the
    transaction committed, [down] had returned, and no row of that name is
    left; when anything throws, the transaction rolled back, the error reaches
    the caller, and the database, the row included, is as it was. *)
Theorem revertMigration_atomic env loc db :
  existsSync env loc = true ->
  recorded db (name (migrationLocationToMigration loc)) = true ->
  match outcome (revertMigration env loc db) with
  | Ok _ =>
      exists code dbd rows,
        require env loc = Ok code /\
        down code db = (Ok tt, dbd) /\
        migrations dbd = Some rows /\
        final (revertMigration env loc db)
        = mkDB (Some (without (name (migrationLocationToMigration loc)) rows))
            (schema dbd) /\
        recorded (final (revertMigration env loc db))
          (name (migrationLocationToMigration loc)) = false /\
        trace (revertMigration env loc db)
        = ExistsSync loc :: Select (name (migrationLocationToMigration loc))
          :: reverted_trace (migrationLocationToMigration loc)
  | Err e =>
      final (revertMigration env loc db) = db /\
      commits (trace (revertMigration env loc db)) = 0%nat /\
      exists body,
        trace (revertMigration env loc db)
        = (ExistsSync loc :: Select (name (migrationLocationToMigration loc))
           :: Begin :: body ++ [Rollback])%list /\
        never is_boundary body = true
  end.
Proof.
  intros Hfile Hrec. rewrite (revertMigration_exists env loc db Hfile).
  set (m := migrationLocationToMigration loc) in *.
  destruct (migrations db) as [rows0|] eqn:Htable.
  2:{ unfold recorded in Hrec. rewrite Htable in Hrec. discriminate. }
  rewrite Hrec.
  destruct (revert_cases env m db)
    as [(e & t & -> & Hc & body & -> & Hbody)
       | (code & dbd & rows & Hreq & Hdown & Hrows & ->)].
  - unfold outcome, final, trace; simpl.
    split; [reflexivity|]. split; [exact Hc|]. exists body. now split.
  - unfold outcome, final, trace; simpl.
    exists code, dbd, rows. repeat split; auto.
    unfold recorded; simpl. apply without_absent.
Qed.

End SingleUnit.

(** ** The ledger across operations *)

Section LedgerAccounts.
Context {Sch : Type}.
Implicit Types (db : DB Sch) (env : Env Sch) (m : Migration).

Lemma without_fresh n rows :
  existsb (String.eqb n) rows = false -> without n (rows ++ [n]) = rows.
Proof.
  unfold without. induction rows as [|r rows IH]; simpl.
  - now rewrite String.eqb_refl.
  - intros H. apply orb_false_iff in H as [Hr Hrows].
    rewrite Hr. simpl. now rewrite (IH Hrows).
Qed.

(** What a successful [_applyMigration] leaves, the units keeping the ledger:
    the rows it found and the new name behind them. *)
Lemma _applyMigration_appends env m db b db' t rows :
  units_keep_ledger env ->
  migrations db = Some rows ->
  _applyMigration env m db = (Ok b, db', t) ->
  migrations db' = Some (rows ++ [name m])%list /\
  existsb (String.eqb (name m)) rows = false /\
  t = applied_trace m.
Proof.
  intros Hkeep Htable Hrun.
  destruct (_applyMigration_cases env m db)
    as [(e & t0 & H & _) | (code & dbu & rows' & Hreq & Hup & Hrows & Hnew & H)];
    rewrite H in Hrun; [discriminate|].
  injection Hrun as _ <- <-.
  rewrite (up_keeps env m code db dbu Hkeep Hreq Hup), Htable in Hrows.
  injection Hrows as ->. now repeat split.
Qed.

(** X3: applying a migration that is not recorded and then reverting it gives
    back the ledger the apply started from, row for row, provided the unit
    itself leaves the ledger alone. *)
Theorem apply_then_revert_restores_ledger env loc db rows v1 db1 t1 v2 db2 t2 :
  units_keep_ledger env ->
  migrations db = Some rows ->
  recorded db (name (migrationLocationToMigration loc)) = false ->
  applyMigration env loc db = (Ok v1, db1, t1) ->
  revertMigration env loc db1 = (Ok v2, db2, t2) ->
  migrations db2 = Some rows.
Proof.
  intros Hkeep Htable Hnew Happly Hrevert.
  set (m := migrationLocationToMigration loc) in *.
  destruct (existsSync env loc) eqn:Hfile.
  - rewrite (applyMigration_exists env loc db Hfile), Htable in Happly.
    fold m in Happly. rewrite Hnew in Happly.
    destruct (_applyMigration env m db) as [[[b|e] dba] ta] eqn:Hrun; [|discriminate].
    injection Happly as _ <- _.
    destruct (_applyMigration_appends env m db b dba ta rows Hkeep Htable Hrun)
      as (Hdba & Hfresh & _).
    rewrite (revertMigration_exists env loc dba Hfile), Hdba in Hrevert.
    fold m in Hrevert.
    assert (Hrec : recorded dba (name m) = true).
    { unfold recorded. rewrite Hdba, existsb_app. simpl.
      now rewrite String.eqb_refl, orb_true_r. }
    rewrite Hrec in Hrevert.
    destruct (revert_cases env m dba)
      as [(e & t & H & _) | (code & dbd & rowsd & Hreq & Hdown & Hrowsd & H)];
      rewrite H in Hrevert; [discriminate|].
    injection Hrevert as _ <- _. simpl.
    destruct (Hkeep _ _ Hreq) as [_ Hd]. specialize (Hd dba).
    rewrite Hdown in Hd. simpl in Hd. rewrite Hrowsd, Hdba in Hd.
    injection Hd as ->. now rewrite without_fresh.
  - rewrite (applyMigration_missing env loc db Hfile) in Happly.
    injection Happly as _ <- _.
    rewrite (revertMigration_missing env loc db Hfile) in Hrevert.
    injection Hrevert as _ <- _. exact Htable.
Qed.

Lemma createMigrationTable_boot db :
  exists t,
    createMigrationTable db = (Ok tt, mkDB (Some (rows_of db)) (schema db), t) /\
    (migrations db <> None -> mkDB (Some (rows_of db)) (schema db) = db) /\
    never is_boundary t = true /\
    createMigrationTable (mkDB (Some (rows_of db)) (schema db))
    = (Ok tt, mkDB (Some (rows_of db)) (schema db), [SelectExists]).
Proof.
  unfold createMigrationTable, bind, Sql.select_exists, Sql.create_table, ret, rows_of.
  destruct db as [[rows|] sch]; simpl.
  - exists [SelectExists]. repeat split; reflexivity.
  - exists [SelectExists; CreateTable]. repeat split; try reflexivity. congruence.
Qed.

(** X4: [createMigrationTable] never raises and never touches what is there:
    it leaves the rows of an existing ledger and the rest of the schema as
    they are, creates an empty ledger when there is none, opens no
    transaction, and run again it only probes. *)
Theorem createMigrationTable_bootstrap db :
  exists t,
    createMigrationTable db = (Ok tt, mkDB (Some (rows_of db)) (schema db), t) /\
    (migrations db <> None -> mkDB (Some (rows_of db)) (schema db) = db) /\
    never is_boundary t = true /\
    createMigrationTable (mkDB (Some (rows_of db)) (schema db))
    = (Ok tt, mkDB (Some (rows_of db)) (schema db), [SelectExists]).
Proof. exact (createMigrationTable_boot db). Qed.

(** An invariant of [_applyMigration] is an invariant of the loop. *)
Lemma apply_loop_invariant (P : DB Sch -> Prop) env ms n db :
  (forall m db0, P db0 -> P (final (_applyMigration env m db0))) ->
  P db -> P (final (apply_loop env ms n db)).
Proof.
  intros Hstep Hdb.
  pose proof (apply_loop_run env ms n db) as Hrun.
  induction Hrun as [n db | m rest n db Htable
                    | m rest n db r db' t Htable Hrec _ IH
                    | m rest n db e t Htable Hrec Hrun _ _ _
                    | m rest n db db1 r db' t Htable Hrec Hrun _ _ IH]; auto.
  apply IH. specialize (Hstep m db Hdb). now rewrite Hrun in Hstep.
Qed.

Lemma applyAllMigrations_invariant (P : DB Sch -> Prop) env paths db :
  (forall db0, P db0 -> P (final (createMigrationTable db0))) ->
  (forall m db0, P db0 -> P (final (_applyMigration env m db0))) ->
  P db -> P (final (applyAllMigrations env paths db)).
Proof.
  intros Hboot Hstep Hdb.
  destruct (applyAllMigrations_shape env paths db)
    as (dba & ta & rf & tf & Hc & _ & _ & _ & _ & _ & _ & _ & _ & _ & _ & ->).
  specialize (Hboot db Hdb). rewrite Hc in Hboot.
  destruct rf as [ms|e]; [|exact Hboot].
  pose proof (apply_loop_invariant P env ms 0%nat dba Hstep Hboot) as H.
  destruct (apply_loop env ms 0%nat dba) as [[[k|e] dbl] tl]; exact H.
Qed.

Lemma _applyMigration_unique env m db :
  units_keep_ledger env ->
  NoDup (rows_of db) -> NoDup (rows_of (final (_applyMigration env m db))).
Proof.
  intros Hkeep Hnd.
  destruct (_applyMigration_cases env m db)
    as [(e & t & -> & _) | (code & dbu & rows & Hreq & Hup & Hrows & Hnew & ->)];
    [exact Hnd|].
  unfold final, rows_of; simpl.
  pose proof (up_keeps env m code db dbu Hkeep Hreq Hup) as Hsame.
  unfold rows_of in Hnd. rewrite <- Hsame, Hrows in Hnd.
  apply NoDup_app; [exact Hnd | repeat constructor; intros [] |].
  intros x Hx [<-|[]].
  assert (existsb (String.eqb (name m)) rows = true).
  { apply existsb_exists. exists (name m). split; [exact Hx | apply String.eqb_refl]. }
  congruence.
Qed.

(** X5: the ledger never holds a name twice: from a ledger without duplicate
    names, [applyMigration], [applyAllMigrations] and [revertMigration] each
    leave a ledger without duplicate names, whatever their outcome (the units
    leaving the ledger alone). *)
Theorem ledger_stays_unique env db :
  units_keep_ledger env ->
  NoDup (rows_of db) ->
  (forall loc, NoDup (rows_of (final (applyMigration env loc db)))) /\
  (forall paths, NoDup (rows_of (final (applyAllMigrations env paths db)))) /\
  (forall loc, NoDup (rows_of (final (revertMigration env loc db)))).
Proof.
  intros Hkeep Hnd. split; [|split].
  - intros loc. destruct (existsSync env loc) eqn:Hfile.
    + rewrite (applyMigration_exists env loc db Hfile).
      destruct (migrations db) eqn:Htable; [|exact Hnd].
      destruct (recorded db _); [exact Hnd|].
      pose proof (_applyMigration_unique env (migrationLocationToMigration loc) db
                    Hkeep Hnd) as H.
      destruct (_applyMigration env _ db) as [[r db'] t]. exact H.
    + now rewrite (applyMigration_missing env loc db Hfile).
  - intros paths. apply applyAllMigrations_invariant with (P := fun d => NoDup (rows_of d)).
    + intros db0 H0. destruct (createMigrationTable_boot db0) as (t & -> & _).
      exact H0.
    + intros m db0 H0. now apply _applyMigration_unique.
    + exact Hnd.
  - intros loc.
    destruct (revertMigration_ledger env loc db Hkeep)
      as [Hsame | (rows & Htable & _ & _ & Hrows)].
    + unfold rows_of in *. now rewrite Hsame.
    + unfold rows_of in *. rewrite Hrows. rewrite Htable in Hnd.
      now apply NoDup_filter.
Qed.

End LedgerAccounts.

(** ** What a batch applies *)

Section BatchAccounts.
Context {Sch : Type}.
Implicit Types (db : DB Sch) (env : Env Sch) (m : Migration).

Lemma loop_run_rows_added env ms n db r db' t rows :
  units_keep_ledger env ->
  loop_run env ms n db r db' t ->
  migrations db = Some rows ->
  exists added,
    migrations db' = Some (rows ++ added)%list /\
    List.length added = commits t.
Proof.
  intros Hkeep H. revert rows.
  induction H as [n db | m rest n db Htable
                 | m rest n db r db' t Htable Hrec _ IH
                 | m rest n db e t Htable Hrec Hrun Hc _ _
                 | m rest n db db1 r db' t Htable Hrec Hrun _ _ IH];
    intros rows Hrows.
  - exists []. now rewrite app_nil_r.
  - congruence.
  - destruct (IH rows Hrows) as (added & Hadd & Hlen). now exists added.
  - exists []. rewrite app_nil_r. split; [exact Hrows|].
    change (commits (Select (name m) :: t)) with (commits t). now rewrite Hc.
  - destruct (_applyMigration_appends env m db true db1 _ rows Hkeep Hrows Hrun)
      as (Hdb1 & _ & _).
    destruct (IH _ Hdb1) as (added & Hadd & Hlen).
    exists (name m :: added). split.
    + rewrite Hadd. now rewrite <- app_assoc.
    + change (Select (name m) :: applied_trace m ++ t)%list
        with ((Select (name m) :: applied_trace m) ++ t)%list.
      rewrite commits_app. simpl. now rewrite Hlen.
Qed.

(** X6: every transaction a batch commits adds exactly one row: after
    [applyAllMigrations], whatever its outcome, the ledger is the ledger it
    found (an empty one if there was none) followed by as many new rows as
    transactions committed, the units leaving the ledger alone. *)
Theorem applyAllMigrations_rows_added env paths db :
  units_keep_ledger env ->
  exists added,
    migrations (final (applyAllMigrations env paths db))
    = Some (rows_of db ++ added)%list /\
    List.length added = commits (trace (applyAllMigrations env paths db)).
Proof.
  intros Hkeep.
  destruct (applyAllMigrations_shape env paths db)
    as (dba & ta & rf & tf & Hc & _ & _ & Hca & _ & _ & _ & _ & Hlooks & _ & _ & ->).
  destruct (looks_quiet tf Hlooks) as (Hcf & _).
  assert (Hdba : migrations dba = Some (rows_of db)).
  { destruct (createMigrationTable_boot db) as (t & Hb & _).
    rewrite Hb in Hc. now injection Hc as <- _. }
  destruct rf as [ms|e].
  - pose proof (apply_loop_run env ms 0%nat dba) as Hrun.
    destruct (loop_run_rows_added _ _ _ _ _ _ _ _ Hkeep Hrun Hdba)
      as (added & Hadd & Hlen).
    exists added.
    destruct (apply_loop env ms 0%nat dba) as [[[k|e] dbl] tl];
      unfold final, trace in *; simpl in *; (split; [exact Hadd|]);
      rewrite !commits_app, Hca, Hcf, <- Hlen; simpl;
      rewrite ?Nat.add_0_r; reflexivity.
  - exists []. unfold final, trace; simpl.
    rewrite app_nil_r, commits_app, Hca, Hcf. now split.
Qed.

Lemma recorded_before db db' n :
  grows db db' -> recorded db' n = false -> recorded db n = false.
Proof.
  intros Hg Hn. destruct (recorded db n) eqn:E; [|reflexivity].
  now rewrite (grows_recorded db db' n Hg E) in Hn.
Qed.

Lemma loop_run_at_most_once env ms n db r db' t :
  units_keep_ledger env ->
  loop_run env ms n db r db' t ->
  Forall (fun d => d = migrationLocationToMigration (location d)) ms ->
  NoDup (ups t) /\
  forall l, In l (ups t) ->
            recorded db (name (migrationLocationToMigration l)) = false.
Proof.
  intros Hkeep H.
  induction H as [n db | m rest n db Htable
                 | m rest n db r db' t Htable Hrec _ IH
                 | m rest n db e t Htable Hrec Hrun _ _ Hu
                 | m rest n db db1 r db' t Htable Hrec Hrun Hnow _ IH];
    intros Hder.
  - split; [constructor | intros l []].
  - split; [constructor | intros l []].
  - inversion Hder; subst. now apply IH.
  - inversion Hder as [|? ? Hm _]; subst. simpl.
    destruct Hu as [-> | ->].
    + split; [constructor | intros l []].
    + split; [repeat constructor; intros [] |].
      intros l [<-|[]].
      change (recorded db (name (migrationLocationToMigration (location m))) = false).
      now rewrite <- Hm.
  - inversion Hder as [|? ? Hm Hrest]; subst.
    destruct (IH Hrest) as [Hnd Hnew].
    change (Select (name m) :: applied_trace m ++ t)%list
      with ((Select (name m) :: applied_trace m) ++ t)%list.
    rewrite ups_app. simpl.
    pose proof (_applyMigration_grows env m db Hkeep) as Hg. rewrite Hrun in Hg.
    split.
    + constructor; [|exact Hnd].
      intros Hin. specialize (Hnew _ Hin). rewrite <- Hm in Hnew. congruence.
    + intros l [<-|Hin].
      * change (recorded db (name (migrationLocationToMigration (location m)))
                = false).
        now rewrite <- Hm.
      * eapply recorded_before; [exact Hg | now apply Hnew].
Qed.

(** X7: a batch applies at most once: in one run of [applyAllMigrations] no
    unit's [up] is called twice, also when roots overlap and a file is found
    more than once, and no [up] is called for a migration whose name was
    recorded when the run began (the units leaving the ledger alone). *)
Theorem applyAllMigrations_at_most_once env paths db :
  units_keep_ledger env ->
  NoDup (ups (trace (applyAllMigrations env paths db))) /\
  forall l, In l (ups (trace (applyAllMigrations env paths db))) ->
            recorded db (name (migrationLocationToMigration l)) = false.
Proof.
  intros Hkeep.
  destruct (applyAllMigrations_shape env paths db)
    as (dba & ta & rf & tf & _ & _ & Hg & _ & Hua & _ & _ & _ & Hlooks & _ & Hfind & ->).
  destruct (looks_quiet tf Hlooks) as (_ & Huf & _).
  destruct rf as [ms|e].
  - pose proof (findAllMigrations_derived env paths dba ms dba tf (Hfind dba)) as Hder.
    pose proof (apply_loop_run env ms 0%nat dba) as Hrun.
    destruct (loop_run_at_most_once _ _ _ _ _ _ _ Hkeep Hrun Hder) as [Hnd Hnew].
    assert (Hups : forall tl' : list event,
               ups (ta ++ tf ++ tl') = ups tl').
    { intros tl'. now rewrite !ups_app, Hua, Huf. }
    destruct (apply_loop env ms 0%nat dba) as [[[k|e] dbl] tl];
      unfold trace in *; simpl in *.
    + rewrite Hups, ups_app, app_nil_r. split; [exact Hnd|].
      intros l Hl. eapply recorded_before; [exact Hg | now apply Hnew].
    + rewrite Hups. split; [exact Hnd|].
      intros l Hl. eapply recorded_before; [exact Hg | now apply Hnew].
  - unfold trace; simpl. rewrite ups_app, Hua, Huf.
    split; [constructor | intros l []].
Qed.

Lemma applyAllMigrations_all_recorded env paths db v db' t ms :
  units_keep_ledger env ->
  applyAllMigrations env paths db = (Ok v, db', t) ->
  outcome (findAllMigrations env paths db) = Ok ms ->
  Forall (fun m => recorded db' (name m) = true) ms.
Proof.
  intros Hkeep Hall Hms.
  destruct (applyAllMigrations_shape env paths db)
    as (dba & ta & rf & tf & _ & _ & _ & _ & _ & _ & _ & _ & _ & _ & Hfind & Heq).
  rewrite Heq in Hall. rewrite Hfind in Hms. unfold outcome in Hms; simpl in Hms.
  subst rf.
  pose proof (apply_loop_run env ms 0%nat dba) as Hrun.
  destruct (apply_loop env ms 0%nat dba) as [[[k|e] dbl] tl]; [|discriminate].
  injection Hall as _ <- _.
  exact (loop_run_recorded env ms 0%nat dba k dbl tl Hkeep Hrun).
Qed.

(** X8: when [applyAllMigrations] returns, nothing it discovered is pending:
    every descriptor [findAllMigrations] yields is recorded in the database
    the call leaves (the units leaving the ledger alone). *)
Theorem applyAllMigrations_leaves_nothing_pending env paths db v db' t ms :
  units_keep_ledger env ->
  applyAllMigrations env paths db = (Ok v, db', t) ->
  outcome (findAllMigrations env paths db) = Ok ms ->
  Forall (fun m => recorded db' (name m) = true) ms.
Proof. exact (applyAllMigrations_all_recorded env paths db v db' t ms). Qed.

End BatchAccounts.

(** ** Discovery across roots *)

Section Roots.
Context {Sch : Type}.
Implicit Types (db : DB Sch) (env : Env Sch) (m : Migration).

Lemma createMigrationTable_events db r db' t :
  createMigrationTable db = (r, db', t) ->
  t = [SelectExists] \/ t = [SelectExists; CreateTable].
Proof.
  unfold createMigrationTable, bind, Sql.select_exists, Sql.create_table, ret.
  destruct (migrations db) eqn:E; cbn [negb]; rewrite ?E; intros H; inversion H; auto.
Qed.

Lemma collect_all env paths filess acc db :
  Forall2 (fun p files => glob env (p ++ "/*.js") = Ok files) paths filess ->
  collect env paths acc db
  = (Ok (acc ++ map migrationLocationToMigration (List.concat filess))%list, db,
     map pattern_of paths).
Proof.
  intros H. revert acc.
  induction H as [|p files paths filess Hglob _ IH]; intros acc.
  - simpl. now rewrite app_nil_r.
  - cbn [collect]. unfold bind at 1. rewrite findMigrationsIn_run, Hglob, IH.
    simpl. now rewrite map_app, app_assoc.
Qed.

Lemma collect_stops env before p rest filess e acc db :
  Forall2 (fun q files => glob env (q ++ "/*.js") = Ok files) before filess ->
  glob env (p ++ "/*.js") = Err e ->
  collect env (before ++ p :: rest) acc db
  = (Err e, db, map pattern_of (before ++ [p])).
Proof.
  intros H Hp. revert acc.
  induction H as [|q files before filess Hglob _ IH]; intros acc.
  - cbn [collect app]. unfold bind at 1. now rewrite findMigrationsIn_run, Hp.
  - cbn [collect app]. unfold bind at 1. rewrite findMigrationsIn_run, Hglob, IH.
    reflexivity.
Qed.

(** X9: discovery loses nothing and invents nothing: when every root can be
    globbed, [findAllMigrations] globs each root once, in the order given,
    leaves the database alone and returns a rearrangement of the descriptors
    of all files found, one per file, whatever their order keys are (equal
    keys and [NaN] included). *)
Theorem findAllMigrations_complete env paths filess db :
  Forall2 (fun p files => glob env (p ++ "/*.js") = Ok files) paths filess ->
  exists ms,
    findAllMigrations env paths db = (Ok ms, db, map pattern_of paths) /\
    Permutation ms (map migrationLocationToMigration (List.concat filess)) /\
    List.length ms = List.length (List.concat filess).
Proof.
  intros H.
  exists (JsArray.sort comparefn (map migrationLocationToMigration (List.concat filess))).
  split; [|split].
  - unfold findAllMigrations, bind. rewrite (collect_all env paths filess [] db H).
    unfold ret. simpl. now rewrite app_nil_r.
  - apply sort_perm.
  - rewrite (Permutation_length (sort_perm comparefn _)). apply length_map.
Qed.

(** X10: discovery fails fast: when a root cannot be globbed,
    [findAllMigrations] raises glob's error, having globbed the roots before
    it and none of those after it, and yields no descriptor; a batch over such
    roots raises the same error and applies nothing: it opens no transaction
    and loads no module. *)
Theorem findAllMigrations_fails_fast env before p rest filess e db :
  Forall2 (fun q files => glob env (q ++ "/*.js") = Ok files) before filess ->
  glob env (p ++ "/*.js") = Err e ->
  findAllMigrations env (before ++ p :: rest) db
  = (Err e, db, map pattern_of (before ++ [p])) /\
  outcome (applyAllMigrations env (before ++ p :: rest) db) = Err e /\
  never is_begin (trace (applyAllMigrations env (before ++ p :: rest) db)) = true /\
  required (trace (applyAllMigrations env (before ++ p :: rest) db)) = [].
Proof.
  intros H Hp.
  assert (Hfind : forall db0,
             findAllMigrations env (before ++ p :: rest) db0
             = (Err e, db0, map pattern_of (before ++ [p]))).
  { intros db0. unfold findAllMigrations, bind.
    now rewrite (collect_stops env before p rest filess e [] db0 H Hp). }
  split; [apply Hfind|].
  destruct (applyAllMigrations_shape env (before ++ p :: rest) db)
    as (dba & ta & rf & tf & Hc & _ & _ & _ & _ & Hqa & _ & _ & Hlooks & _ & Hfind' & ->).
  specialize (Hfind' db). rewrite Hfind in Hfind'. injection Hfind' as <- <-.
  destruct (createMigrationTable_boot db) as (t & Hb & _ & Hnb & _).
  rewrite Hb in Hc. injection Hc as _ <-.
  destruct (looks_quiet _ Hlooks) as (_ & _ & Hqf & Hbf).
  unfold outcome, trace; simpl. split; [reflexivity|]. split.
  - rewrite never_app, Hbf, andb_true_r.
    now destruct (createMigrationTable_events _ _ _ _ Hb) as [-> | ->].
  - now rewrite required_app, Hqa, Hqf.
Qed.

End Roots.

(** ** Order keys that tie *)

Section Ties.
Context {Sch : Type}.
Implicit Types (db : DB Sch) (env : Env Sch) (m : Migration).

Lemma order_le_trans a b c : order_le a b -> order_le b c -> order_le a c.
Proof.
  unfold order_le. destruct (order a), (order b), (order c); try easy. lia.
Qed.

Lemma insert_ascending x l :
  is_int (order x) = true ->
  Forall (fun m => is_int (order m) = true) l ->
  StronglySorted order_le l ->
  StronglySorted order_le (JsArray.insert comparefn x l).
Proof.
  intros Hx Hl Hs.
  destruct (order x) as [|a|] eqn:Ex; [discriminate| |discriminate].
  induction Hs as [|y l Hs IH Hy]; simpl.
  - repeat constructor.
  - inversion Hl as [|? ? Hyi Hli]; subst.
    destruct (order y) as [|b|] eqn:Ey; [discriminate| |discriminate].
    rewrite (after_int x y a b Ex Ey).
    destruct (Z.ltb_spec b a) as [Hlt|Hge].
    + constructor; [now apply IH|].
      apply (Permutation_Forall (x := x :: l)); [symmetry; apply insert_perm|].
      constructor; [|exact Hy].
      unfold order_le. rewrite Ex, Ey. lia.
    + assert (Hxy : order_le x y) by (unfold order_le; now rewrite Ex, Ey).
      constructor; [now constructor|].
      constructor; [exact Hxy|].
      eapply Forall_impl; [|exact Hy].
      intros z Hz. eapply order_le_trans; eauto.
Qed.

Lemma sort_ascending l :
  Forall (fun m => is_int (order m) = true) l ->
  StronglySorted order_le (JsArray.sort comparefn l).
Proof.
  induction l as [|x l IH]; intros Hint; simpl; [constructor|].
  fold (JsArray.sort comparefn l). inversion Hint; subst.
  apply insert_ascending; auto.
  apply (Permutation_Forall (x := l)); [symmetry; apply sort_perm | assumption].
Qed.

(** X11: order keys may tie.  When all files found carry integer order keys
    (the Numbers the code compares), equal ones allowed, [findAllMigrations] returns the descriptors in
    ascending order of their keys and [applyAllMigrations] invokes
    [_applyMigration] in that order: never on a key below one it has already
    been invoked on. *)
Theorem applyAllMigrations_never_descends env paths filess db :
  Forall2 (fun p files => glob env (p ++ "/*.js") = Ok files) paths filess ->
  Forall (fun m => is_int (order m) = true)
    (map migrationLocationToMigration (List.concat filess)) ->
  exists called sorted,
    outcome (findAllMigrations env paths db) = Ok sorted /\
    Permutation sorted (map migrationLocationToMigration (List.concat filess)) /\
    StronglySorted order_le sorted /\
    required (trace (applyAllMigrations env paths db)) = map location called /\
    subseq called sorted /\
    StronglySorted order_le called.
Proof.
  intros Hglob Hint.
  set (found := map migrationLocationToMigration (List.concat filess)) in *.
  pose proof (sort_ascending found Hint) as Hsorted.
  destruct (applyAllMigrations_shape env paths db)
    as (dba & ta & rf & tf & _ & _ & _ & _ & _ & Hqa & _ & _ & Hlooks & _ & Hfind & ->).
  pose proof (findAllMigrations_found env paths filess db Hglob) as Hms.
  fold found in Hms.
  assert (Hrf : rf = Ok (JsArray.sort comparefn found)).
  { rewrite Hfind in Hms. exact Hms. }
  subst rf.
  destruct (looks_quiet tf Hlooks) as (_ & _ & Hqf & _).
  pose proof (apply_loop_run env (JsArray.sort comparefn found) 0%nat dba) as Hrun.
  destruct (loop_run_called _ _ _ _ _ _ _ Hrun) as (called & Hcalled & Hsub).
  exists called, (JsArray.sort comparefn found).
  split; [exact Hms|]. split; [apply sort_perm|]. split; [exact Hsorted|].
  split; [|split; [exact Hsub|]].
  - destruct (apply_loop env (JsArray.sort comparefn found) 0%nat dba)
      as [[[k|e] dbl] tl]; unfold trace in *; simpl in *;
      rewrite !required_app, Hqa, Hqf, Hcalled; simpl;
      rewrite ?app_nil_r; reflexivity.
  - eapply subseq_sorted; eauto.
Qed.

End Ties.

(** ** Listing *)

Section ListingFacts.
Context {Sch : Type}.
Implicit Types (db : DB Sch) (env : Env Sch) (m : Migration).

Lemma list_loop_run ms db rows :
  migrations db = Some rows ->
  list_loop ms db = (Ok tt, db, flat_map (listed db) ms).
Proof.
  intros Htable. induction ms as [|m ms IH]; [reflexivity|].
  cbn [list_loop flat_map]. unfold bind at 1.
  rewrite (hasBeenRun_run m db rows Htable).
  unfold bind at 1. unfold log at 1, emit at 1. rewrite IH. reflexivity.
Qed.

Lemma listMigrations_shape env paths db ms :
  outcome (findAllMigrations env paths db) = Ok ms ->
  listMigrations env paths db
  = (Ok VUndefined, mkDB (Some (rows_of db)) (schema db),
     trace (createMigrationTable db) ++ trace (findAllMigrations env paths db)
     ++ Log "Applied Y/N     Path to migration"
     :: flat_map (listed (mkDB (Some (rows_of db)) (schema db))) ms ++ [Log ""])%list.
Proof.
  intros Hms.
  destruct (createMigrationTable_boot db) as (ta & Hboot & _).
  destruct (findAllMigrations_pure env paths) as (rf & tf & _ & Hfind).
  rewrite Hfind in Hms. unfold outcome in Hms; simpl in Hms. subst rf.
  unfold listMigrations. unfold bind at 1. rewrite Hboot.
  unfold bind at 1. rewrite !Hfind.
  unfold bind at 1. unfold log at 1, emit at 1.
  unfold bind at 1.
  rewrite (list_loop_run ms (mkDB (Some (rows_of db)) (schema db)) (rows_of db) eq_refl).
  unfold bind, log, emit, ret, trace. simpl. reflexivity.
Qed.

(** X12: [listMigrations] only reads, the bootstrap of the ledger table
    apart: it returns with the database [createMigrationTable] left, opens no
    transaction, loads no module, and prints, between a header and an empty
    line, one line per descriptor in the order of [findAllMigrations], [Y] or
    [N] according to whether the name is recorded, followed by the
    location. *)
Theorem listMigrations_reports env paths db ms :
  outcome (findAllMigrations env paths db) = Ok ms ->
  listMigrations env paths db
  = (Ok VUndefined, mkDB (Some (rows_of db)) (schema db),
     trace (createMigrationTable db) ++ trace (findAllMigrations env paths db)
     ++ Log "Applied Y/N     Path to migration"
     :: flat_map (listed (mkDB (Some (rows_of db)) (schema db))) ms ++ [Log ""])%list /\
  never is_boundary (trace (listMigrations env paths db)) = true /\
  required (trace (listMigrations env paths db)) = [] /\
  ups (trace (listMigrations env paths db)) = [].
Proof.
  intros Hms. rewrite (listMigrations_shape env paths db ms Hms).
  split; [reflexivity|].
  destruct (createMigrationTable_boot db) as (ta & Hboot & _ & Hnb & _).
  destruct (findAllMigrations_pure env paths) as (rf & tf & Hglobs & Hfind).
  destruct (globs_look tf Hglobs) as [Hlooks _].
  destruct (looks_quiet tf Hlooks) as (_ & Huf & Hqf & _).
  rewrite Hboot, Hfind. unfold trace; simpl.
  assert (Hlines : forall (d : DB Sch) (l : list Migration),
             never is_boundary (flat_map (listed d) l ++ [Log ""]) = true /\
             required (flat_map (listed d) l ++ [Log ""]) = [] /\
             ups (flat_map (listed d) l ++ [Log ""]) = []).
  { intros d l. induction l as [|m l IH]; [now repeat split|]. exact IH. }
  destruct (Hlines (mkDB (Some (rows_of db)) (schema db)) ms) as (Hb & Hq & Hu).
  pose proof (createMigrationTable_events _ _ _ _ Hboot) as Hta.
  assert (Hnf : never is_boundary tf = true).
  { clear -Hglobs. induction tf as [|e tf IH]; [reflexivity|].
    simpl in Hglobs. apply andb_true_iff in Hglobs as [He Ht].
    destruct e; try discriminate. simpl. now apply IH. }
  split; [|split].
  - rewrite !never_app, Hnb, Hnf. simpl. exact Hb.
  - rewrite !required_app, Hqf. simpl. rewrite Hq.
    now destruct Hta as [-> | ->].
  - rewrite !ups_app, Huf. simpl. rewrite Hu.
    now destruct Hta as [-> | ->].
Qed.

(** X13: after a batch that ran to its end the listing shows no pending
    migration: [listMigrations], run on the database [applyAllMigrations]
    left, changes nothing and prints [Y] for every descriptor (the units
    leaving the ledger alone). *)
Theorem listMigrations_after_batch env paths db v db1 t1 ms :
  units_keep_ledger env ->
  applyAllMigrations env paths db = (Ok v, db1, t1) ->
  outcome (findAllMigrations env paths db) = Ok ms ->
  listMigrations env paths db1
  = (Ok VUndefined, db1,
     SelectExists :: trace (findAllMigrations env paths db)
     ++ Log "Applied Y/N     Path to migration"
     :: flat_map (fun m => [Select (name m); Log (list_line true m)]) ms
     ++ [Log ""])%list.
Proof.
  intros Hkeep Hall Hms.
  pose proof (applyAllMigrations_all_recorded env paths db v db1 t1 ms Hkeep Hall Hms)
    as Hrec.
  assert (Htable : migrations db1 <> None).
  { pose proof (applyAllMigrations_grows env paths db Hkeep) as Hg.
    rewrite Hall in Hg. unfold final in Hg; simpl in Hg.
    destruct (applyAllMigrations_shape env paths db)
      as (dba & ta & rf & tf & _ & Hdba & _ & _ & _ & _ & _ & _ & _ & _ & Hfind & Heq).
    rewrite Heq in Hall. rewrite Hfind in Hms. unfold outcome in Hms; simpl in Hms.
    subst rf.
    pose proof (apply_loop_grows env ms 0%nat dba Hkeep) as Hgl.
    destruct (apply_loop env ms 0%nat dba) as [[[k|e] dbl] tl]; [|discriminate].
    injection Hall as _ <- _. eapply grows_table; eauto. }
  destruct (findAllMigrations_pure env paths) as (rf & tf & _ & Hfind).
  assert (Hms1 : outcome (findAllMigrations env paths db1) = Ok ms).
  { rewrite Hfind in *. exact Hms. }
  rewrite (listMigrations_shape env paths db1 ms Hms1).
  destruct (createMigrationTable_boot db1) as (ta & Hboot & Hsame & _ & Hagain).
  rewrite (Hsame Htable) in *. rewrite Hagain, !Hfind. unfold trace; simpl.
  f_equal. f_equal. f_equal. f_equal. f_equal.
  clear -Hrec. induction Hrec as [|m ms Hm _ IH]; [reflexivity|].
  cbn [flat_map]. unfold listed at 1. now rewrite Hm, IH.
Qed.

End ListingFacts.

(** ** Scaffolding *)

Section Scaffold.

Lemma numeral_plain c d :
  is_decimal c = false ->
  contains c (NilEmpty.string_of_uint d) = false.
Proof.
  intros Hc. induction d; cbn [contains NilEmpty.string_of_uint];
    rewrite ?IHd; try reflexivity;
    rewrite orb_false_r;
    match goal with
    | |- Ascii.eqb ?a c = false =>
        destruct (Ascii.eqb a c) eqn:E; [|reflexivity];
        apply Ascii.eqb_eq in E; subst c; discriminate
    end.
Qed.

Lemma created_name directory timestamp nm :
  contains "/" nm = false ->
  name (migrationLocationToMigration (Cli.filename_of directory timestamp nm))
  = decimal timestamp ++ "-" ++ nm.
Proof.
  intros Hnm. unfold migrationLocationToMigration, Cli.filename_of. cbn [name].
  set (stem := decimal timestamp ++ "-" ++ nm).
  assert (Hstem : contains "/" (stem ++ ".js") = false).
  { unfold stem, decimal. rewrite !contains_app, Hnm.
    now rewrite (numeral_plain "/" _ eq_refl). }
  assert (Hloc : directory ++ "/" ++ decimal timestamp ++ "-" ++ nm ++ ".js"
                 = (directory ++ "/") ++ stem ++ ".js").
  { unfold stem. now rewrite !append_assoc. }
  rewrite Hloc.
  assert (Hslash : lastIndexOf "/" ((directory ++ "/") ++ stem ++ ".js") + 1
                   = len (directory ++ "/")).
  { rewrite append_assoc. cbn [String.append].
    rewrite (lastIndexOf_last "/" directory (stem ++ ".js") Hstem).
    rewrite len_app. reflexivity. }
  assert (Hdot : lastIndexOf "." ((directory ++ "/") ++ stem ++ ".js")
                 = len (directory ++ "/") + len stem).
  { rewrite <- append_assoc. change ".js" with (String "." "js").
    rewrite (lastIndexOf_last "." _ "js" eq_refl). apply len_app. }
  rewrite Hslash, Hdot. apply slice_middle.
Qed.

(** X14: a migration made by [createMigration] is found again under its
    timestamp: when the name given has no [/] and the write succeeds,
    [createMigration] writes one file, [<directory>/<timestamp>-<name>.js],
    with the stub of an empty [up] and [down], and logs its path; and the
    descriptor [migrationLocationToMigration] derives from that path has the
    name [<timestamp>-<name>] and the timestamp as its order key. *)
Theorem createMigration_round_trip host nm directory :
  contains "/" nm = false ->
  Cli.writeFileSync host (Cli.filename_of directory (Cli.now host) nm) Cli.stub = None ->
  Cli.createMigration host nm directory
  = (Ok VUndefined,
     [Cli.WriteFile (Cli.filename_of directory (Cli.now host) nm) Cli.stub;
      Cli.Core (Log ("Migration written to "
                     ++ Cli.filename_of directory (Cli.now host) nm))]) /\
  migrationLocationToMigration (Cli.filename_of directory (Cli.now host) nm)
  = mkMigration (Int (Z.of_N (Cli.now host)))
      (Cli.filename_of directory (Cli.now host) nm)
      (decimal (Cli.now host) ++ "-" ++ nm).
Proof.
  intros Hnm Hwrite. split.
  - unfold Cli.createMigration. now rewrite Hwrite.
  - pose proof (created_name directory (Cli.now host) nm Hnm) as Hname.
    unfold migrationLocationToMigration in *. cbn [name] in Hname.
    rewrite Hname. f_equal.
    rewrite (parseInt_decimal (Cli.now host) ("-" ++ nm)) by reflexivity.
    apply to_double_small.
    pose proof (Cli.now_time_value host) as Hnow.
    apply N.leb_le in Hnow.
    assert (8640000000000000 < 2 ^ 53) by reflexivity. lia.
Qed.

End Scaffold.

(** ** The command line *)

Section CommandLine.
Context {Sch : Type}.
Implicit Types (db : DB Sch) (env : Env Sch) (host : Cli.Host).

Lemma ends_core (t : list event) : Cli.ends (map Cli.Core t) = 0%nat.
Proof. unfold Cli.ends. induction t as [|e t IH]; [reflexivity | exact IH]. Qed.

Lemma core_events_core (t : list event) : Cli.core_events (map Cli.Core t) = t.
Proof. induction t as [|e t IH]; [reflexivity|]. simpl. now rewrite IH. Qed.

Lemma written_core (t : list event) : Cli.written (map Cli.Core t) = [].
Proof. induction t as [|e t IH]; [reflexivity | exact IH]. Qed.

Lemma ends_app t1 t2 : Cli.ends (t1 ++ t2) = (Cli.ends t1 + Cli.ends t2)%nat.
Proof. unfold Cli.ends. now rewrite filter_app, length_app. Qed.

Lemma core_no_end {A} (x : result A * DB Sch * list event) :
  Cli.ends (Cli.trace (Cli.core x)) = 0%nat.
Proof. destruct x as [[r d] t]. apply ends_core. Qed.

Lemma dispatch_no_end env host cmd_name paths args db :
  Cli.ends (Cli.trace (Cli.dispatch env host cmd_name paths args db)) = 0%nat.
Proof.
  unfold Cli.dispatch.
  destruct (Cli.arg_is args 0 "all"); [apply core_no_end|].
  destruct (Cli.arg_is args 0 "list"); [apply core_no_end|].
  destruct (Cli.arg_is args 0 "revert").
  { destruct (Cli.arg args 1); [apply core_no_end | reflexivity]. }
  destruct (Cli.arg_is args 0 "apply").
  { destruct (Cli.arg args 1); [apply core_no_end | reflexivity]. }
  destruct (Cli.arg_is args 0 "create"); [|reflexivity].
  destruct (Cli.arg args 1) as [nm|]; [|reflexivity].
  destruct (Cli.arg args 2) as [directory|]; [|reflexivity].
  unfold Cli.createMigration.
  destruct (Cli.writeFileSync host _ Cli.stub); reflexivity.
Qed.

(** X15: [cmd] ends the connection exactly when its command returns: after a
    command that ran to its end, [sql.end()] is the last thing [cmd] does and
    it is done once; when the command throws, the error reaches the caller
    of [cmd] and the connection is never ended.  Either way the database is
    the one the command left. *)
Theorem cmd_ends_connection env host cmd_name paths args db :
  Cli.final (Cli.cmd env host cmd_name paths args db)
  = Cli.final (Cli.dispatch env host cmd_name paths args db) /\
  match Cli.outcome (Cli.dispatch env host cmd_name paths args db) with
  | Ok _ =>
      Cli.outcome (Cli.cmd env host cmd_name paths args db) = Ok VUndefined /\
      Cli.trace (Cli.cmd env host cmd_name paths args db)
      = (Cli.trace (Cli.dispatch env host cmd_name paths args db) ++ [Cli.End_])%list /\
      Cli.ends (Cli.trace (Cli.cmd env host cmd_name paths args db)) = 1%nat
  | Err e =>
      Cli.outcome (Cli.cmd env host cmd_name paths args db) = Err e /\
      Cli.ends (Cli.trace (Cli.cmd env host cmd_name paths args db)) = 0%nat
  end.
Proof.
  pose proof (dispatch_no_end env host cmd_name paths args db) as Hno.
  unfold Cli.cmd.
  destruct (Cli.dispatch env host cmd_name paths args db) as [[[v|e] db'] t];
    unfold Cli.outcome, Cli.final, Cli.trace in *; simpl in *.
  - split; [reflexivity|]. split; [reflexivity|]. split; [reflexivity|].
    now rewrite ends_app, Hno.
  - split; [reflexivity|]. split; [reflexivity | exact Hno].
Qed.

(** X16: only [all], [list], and [apply] and [revert] with a path reach the
    database: any other command line (no command, an unknown one, [create],
    [apply] or [revert] without a path or with an empty one) returns with the
    database untouched and without a single query. *)
Theorem cmd_without_database env host cmd_name paths args db :
  Cli.arg_is args 0 "all" = false ->
  Cli.arg_is args 0 "list" = false ->
  (Cli.arg_is args 0 "revert" = true \/ Cli.arg_is args 0 "apply" = true ->
   Cli.arg args 1 = None) ->
  Cli.final (Cli.cmd env host cmd_name paths args db) = db /\
  never db_event (Cli.core_events (Cli.trace (Cli.cmd env host cmd_name paths args db)))
  = true.
Proof.
  intros Hall Hlist Hpath.
  unfold Cli.cmd, Cli.dispatch. rewrite Hall, Hlist.
  destruct (Cli.arg_is args 0 "revert") eqn:Hrevert.
  { rewrite (Hpath (or_introl eq_refl)). now split. }
  destruct (Cli.arg_is args 0 "apply") eqn:Happly.
  { rewrite (Hpath (or_intror eq_refl)). now split. }
  destruct (Cli.arg_is args 0 "create").
  - destruct (Cli.arg args 1) as [nm|]; [|now split].
    destruct (Cli.arg args 2) as [directory|]; [|now split].
    unfold Cli.createMigration.
    destruct (Cli.writeFileSync host _ Cli.stub); now split.
  - now split.
Qed.

(** X17: [cmd] writes a file only for [create] with a name and a directory,
    and then the one file [createMigration] names; every other command line
    writes nothing. *)
Theorem cmd_writes_only_on_create env host cmd_name paths args db :
  Cli.written (Cli.trace (Cli.cmd env host cmd_name paths args db))
  = if Cli.arg_is args 0 "all" || Cli.arg_is args 0 "list"
       || Cli.arg_is args 0 "revert" || Cli.arg_is args 0 "apply"
    then []
    else if Cli.arg_is args 0 "create" then
      match Cli.arg args 1, Cli.arg args 2 with
      | Some nm, Some directory => [Cli.filename_of directory (Cli.now host) nm]
      | _, _ => []
      end
    else [].
Proof.
  assert (Hcore : forall (x : result value * DB Sch * list event),
             Cli.written
               (Cli.trace (let '(r, db', t) := Cli.core x in
                       match r with
                       | Ok _ => (Ok VUndefined, db', (t ++ [Cli.End_])%list)
                       | Err e => (Err e, db', t)
                       end)) = []).
  { intros [[[v|e] db'] t]; unfold Cli.trace; simpl.
    - induction t as [|ev t IH]; [reflexivity | exact IH].
    - apply written_core. }
  unfold Cli.cmd, Cli.dispatch.
  destruct (Cli.arg_is args 0 "all"); [apply Hcore|].
  destruct (Cli.arg_is args 0 "list"); [apply Hcore|].
  destruct (Cli.arg_is args 0 "revert"); cbn [orb].
  { destruct (Cli.arg args 1); [apply Hcore | reflexivity]. }
  destruct (Cli.arg_is args 0 "apply"); cbn [orb].
  { destruct (Cli.arg args 1); [apply Hcore | reflexivity]. }
  destruct (Cli.arg_is args 0 "create"); [|reflexivity].
  destruct (Cli.arg args 1) as [nm|]; [|reflexivity].
  destruct (Cli.arg args 2) as [directory|]; [|reflexivity].
  unfold Cli.createMigration.
  destruct (Cli.writeFileSync host _ Cli.stub); reflexivity.
Qed.

End CommandLine.

(** ** The two variants *)

Section Variants.
Context {Sch : Type}.
Implicit Types (db : DB Sch) (env : Env Sch) (m : Migration).

Lemma statements_stmt (t : list event) : Slonik.statements (map Slonik.Stmt t) = t.
Proof. induction t as [|e t IH]; [reflexivity|]. simpl. now rewrite IH. Qed.

Lemma statements_app t1 t2 :
  Slonik.statements (t1 ++ t2) = (Slonik.statements t1 ++ Slonik.statements t2)%list.
Proof.
  induction t1 as [|e t1 IH]; [reflexivity|].
  destruct e; simpl; rewrite ?IH; reflexivity.
Qed.

Lemma pools_stmt (t : list event) :
  Slonik.pools_created (map Slonik.Stmt t) = 0%nat /\
  Slonik.pools_ended (map Slonik.Stmt t) = 0%nat.
Proof.
  unfold Slonik.pools_created, Slonik.pools_ended.
  induction t as [|e t IH]; [now split | exact IH].
Qed.

Lemma pools_app t1 t2 :
  Slonik.pools_created (t1 ++ t2)
  = (Slonik.pools_created t1 + Slonik.pools_created t2)%nat /\
  Slonik.pools_ended (t1 ++ t2)
  = (Slonik.pools_ended t1 + Slonik.pools_ended t2)%nat.
Proof.
  unfold Slonik.pools_created, Slonik.pools_ended.
  now rewrite !filter_app, !length_app.
Qed.

Lemma slonik_applyMigration_missing env loc db :
  existsSync env loc = false ->
  Slonik.applyMigration env loc db
  = (Ok VUndefined, db,
     map Slonik.Stmt
       [ExistsSync loc; Log ("Run aborted. " ++ loc ++ " not found")]).
Proof.
  intros Hfile.
  unfold Slonik.applyMigration, Slonik.bindP, Slonik.emitP, Slonik.on_pool.
  now rewrite Hfile.
Qed.

Lemma slonik_revertMigration_missing env loc db :
  existsSync env loc = false ->
  Slonik.revertMigration env loc db
  = (Ok VUndefined, db,
     map Slonik.Stmt
       [ExistsSync loc; Log ("Revert aborted. " ++ loc ++ " not found")]).
Proof.
  intros Hfile.
  unfold Slonik.revertMigration, Slonik.bindP, Slonik.emitP, Slonik.on_pool.
  now rewrite Hfile.
Qed.

(** On an existing file the slonik [applyMigration] is the other one with a
    pool created after the file test and ended if the call returns. *)
Lemma slonik_applyMigration_exists env loc db :
  existsSync env loc = true ->
  Slonik.applyMigration env loc db
  = let '(r, db', t) := applyMigration env loc db in
    (r, db',
     Slonik.Stmt (ExistsSync loc) :: Slonik.CreatePool
     :: map Slonik.Stmt (tl t) ++ closing r)%list.
Proof.
  intros Hfile. rewrite (applyMigration_exists env loc db Hfile).
  set (m := migrationLocationToMigration loc).
  unfold Slonik.applyMigration. fold m.
  unfold Slonik.bindP at 1. unfold Slonik.emitP at 1.
  rewrite Hfile. cbn [negb].
  unfold Slonik.bindP at 1. unfold Slonik.getDb at 1, Slonik.emitP at 1.
  unfold Slonik.bindP at 1. unfold Slonik.on_pool at 1.
  destruct (migrations db) as [rows|] eqn:Htable.
  - rewrite (hasBeenRun_run m db rows Htable).
    destruct (recorded db (name m)); cbn [negb].
    + reflexivity.
    + unfold Slonik.bindP at 1. unfold Slonik.bindP at 1.
      unfold Slonik.on_pool at 1.
      destruct (_applyMigration env m db) as [[[b|e] db'] t]; simpl.
      * rewrite ?app_nil_r. reflexivity.
      * rewrite ?app_nil_r. reflexivity.
  - now rewrite (hasBeenRun_no_table m db Htable).
Qed.

Lemma slonik_revertMigration_exists env loc db :
  existsSync env loc = true ->
  Slonik.revertMigration env loc db
  = let '(r, db', t) := revertMigration env loc db in
    (r, db',
     Slonik.Stmt (ExistsSync loc) :: Slonik.CreatePool
     :: map Slonik.Stmt (tl t) ++ closing r)%list.
Proof.
  intros Hfile. rewrite (revertMigration_exists env loc db Hfile).
  set (m := migrationLocationToMigration loc).
  unfold Slonik.revertMigration. fold m.
  unfold Slonik.bindP at 1. unfold Slonik.emitP at 1.
  rewrite Hfile. cbn [negb].
  unfold Slonik.bindP at 1. unfold Slonik.getDb at 1, Slonik.emitP at 1.
  unfold Slonik.bindP at 1. unfold Slonik.on_pool at 1.
  destruct (migrations db) as [rows|] eqn:Htable.
  - rewrite (hasBeenRun_run m db rows Htable).
    destruct (recorded db (name m)); cbn [negb].
    + unfold Slonik.bindP at 1. unfold Slonik.on_pool at 1.
      fold (revert_body env m).
      destruct (Sql.begin (revert_body env m) db) as [[[b|e] db'] t]; simpl.
      * rewrite ?app_nil_r. reflexivity.
      * rewrite ?app_nil_r. reflexivity.
    + reflexivity.
  - now rewrite (hasBeenRun_no_table m db Htable).
Qed.

(** The slonik [applyAllMigrations] is the other one with the table
    bootstrapped in one statement, inside a pool that is ended if the call
    returns. *)
Lemma slonik_applyAllMigrations_shape env paths db :
  exists rest,
    trace (applyAllMigrations env paths db)
    = (trace (createMigrationTable db) ++ rest)%list /\
    Slonik.applyAllMigrations env paths db
    = (outcome (applyAllMigrations env paths db),
       final (applyAllMigrations env paths db),
       Slonik.CreatePool :: Slonik.CreateTableIfNotExists
       :: map Slonik.Stmt rest ++ closing (outcome (applyAllMigrations env paths db)))%list.
Proof.
  destruct (applyAllMigrations_shape env paths db)
    as (dba & ta & rf & tf & Hc & _ & _ & _ & _ & _ & _ & _ & _ & _ & Hfind & ->).
  destruct (createMigrationTable_boot db) as (ta' & Hboot & _).
  rewrite Hboot in Hc. injection Hc as <- <-. rewrite Hboot.
  assert (Hs : Slonik.createMigrationTable db
               = (Ok tt, mkDB (Some (rows_of db)) (schema db),
                  [Slonik.CreateTableIfNotExists])).
  { unfold Slonik.createMigrationTable, rows_of. now destruct db as [[rows|] sch]. }
  unfold Slonik.applyAllMigrations.
  unfold Slonik.bindP at 1. unfold Slonik.getDb at 1, Slonik.emitP at 1.
  unfold Slonik.bindP at 1. rewrite Hs.
  unfold Slonik.bindP at 1. unfold Slonik.on_pool at 1. rewrite Hfind.
  destruct rf as [ms|e].
  - unfold Slonik.bindP at 1. unfold Slonik.on_pool at 1.
    destruct (apply_loop env ms 0%nat _) as [[[k|e] dbl] tl].
    + exists (tf ++ tl ++ [Log (report k)])%list.
      split; [reflexivity|].
      unfold Slonik.bindP, Slonik.on_pool, Slonik.emitP, Slonik.retP, log, emit, report,
        outcome, final, trace, closing.
      destruct (negb (Nat.eqb k 0)); simpl;
        rewrite !map_app, ?app_nil_r, <- ?app_assoc; reflexivity.
    + exists (tf ++ tl)%list. split; [reflexivity|].
      unfold outcome, final, closing; simpl.
      now rewrite map_app, app_nil_r.
  - exists tf. split; [reflexivity|].
    unfold outcome, final, closing; simpl. now rewrite app_nil_r.
Qed.

(** X18: the two variants of the module do the same to the database:
    [applyMigration], [revertMigration] and [applyAllMigrations] of the
    slonik variant return or raise as those of the postgres variant do and
    leave the same database; the single-unit commands issue the same
    statements in the same order, and the batch issues those of the other
    batch behind its table bootstrap, which slonik does in one statement. *)
Theorem variants_agree env db :
  (forall loc,
      Slonik.outcome (Slonik.applyMigration env loc db)
      = outcome (applyMigration env loc db) /\
      Slonik.final (Slonik.applyMigration env loc db)
      = final (applyMigration env loc db) /\
      Slonik.statements (Slonik.trace (Slonik.applyMigration env loc db))
      = trace (applyMigration env loc db)) /\
  (forall loc,
      Slonik.outcome (Slonik.revertMigration env loc db)
      = outcome (revertMigration env loc db) /\
      Slonik.final (Slonik.revertMigration env loc db)
      = final (revertMigration env loc db) /\
      Slonik.statements (Slonik.trace (Slonik.revertMigration env loc db))
      = trace (revertMigration env loc db)) /\
  (forall paths,
      Slonik.outcome (Slonik.applyAllMigrations env paths db)
      = outcome (applyAllMigrations env paths db) /\
      Slonik.final (Slonik.applyAllMigrations env paths db)
      = final (applyAllMigrations env paths db) /\
      Slonik.final (Slonik.createMigrationTable db)
      = final (createMigrationTable db) /\
      trace (applyAllMigrations env paths db)
      = (trace (createMigrationTable db)
         ++ Slonik.statements (Slonik.trace (Slonik.applyAllMigrations env paths db)))%list).
Proof.
  assert (Hclosing : forall A (r : result A), Slonik.statements (closing r) = []).
  { intros A [a|e]; reflexivity. }
  split; [|split].
  - intros loc. destruct (existsSync env loc) eqn:Hfile.
    + rewrite (slonik_applyMigration_exists env loc db Hfile).
      pose proof (applyMigration_exists env loc db Hfile) as Hshape.
      destruct (applyMigration env loc db) as [[r db'] t].
      unfold Slonik.outcome, Slonik.final, Slonik.trace, outcome, final, trace; simpl.
      split; [reflexivity|]. split; [reflexivity|].
      rewrite statements_app, statements_stmt, Hclosing, app_nil_r.
      destruct (migrations db).
      * destruct (recorded db _).
        -- now inversion Hshape.
        -- destruct (_applyMigration env _ db) as [[r0 db0] t0]. now inversion Hshape.
      * now inversion Hshape.
    + rewrite (slonik_applyMigration_missing env loc db Hfile).
      rewrite (applyMigration_missing env loc db Hfile). now repeat split.
  - intros loc. destruct (existsSync env loc) eqn:Hfile.
    + rewrite (slonik_revertMigration_exists env loc db Hfile).
      pose proof (revertMigration_exists env loc db Hfile) as Hshape.
      destruct (revertMigration env loc db) as [[r db'] t].
      unfold Slonik.outcome, Slonik.final, Slonik.trace, outcome, final, trace; simpl.
      split; [reflexivity|]. split; [reflexivity|].
      rewrite statements_app, statements_stmt, Hclosing, app_nil_r.
      destruct (migrations db).
      * destruct (recorded db _).
        -- destruct (Sql.begin _ db) as [[r0 db0] t0]. now inversion Hshape.
        -- now inversion Hshape.
      * now inversion Hshape.
    + rewrite (slonik_revertMigration_missing env loc db Hfile).
      rewrite (revertMigration_missing env loc db Hfile). now repeat split.
  - intros paths.
    destruct (slonik_applyAllMigrations_shape env paths db) as (rest & Htrace & ->).
    unfold Slonik.outcome, Slonik.final, Slonik.trace; simpl.
    split; [reflexivity|]. split; [reflexivity|]. split.
    + destruct (createMigrationTable_boot db) as (ta & -> & _).
      unfold Slonik.createMigrationTable, rows_of, final; simpl.
      now destruct db as [[rows|] sch].
    + now rewrite statements_app, statements_stmt, Hclosing, app_nil_r.
Qed.

(** X19: the slonik variant ends the pool it created only when the call
    returns: [applyMigration] and [revertMigration] create one pool, after
    the file test, and none for a missing file; [applyAllMigrations] creates
    one; and [pool.end()] is called once if the call returns and not at all
    if it raises, so an error leaves the pool open. *)
Theorem pool_ends_only_on_return env db :
  (forall loc,
      Slonik.pools_created (Slonik.trace (Slonik.applyMigration env loc db))
      = (if existsSync env loc then 1 else 0)%nat /\
      Slonik.pools_ended (Slonik.trace (Slonik.applyMigration env loc db))
      = match Slonik.outcome (Slonik.applyMigration env loc db) with
        | Ok _ => if existsSync env loc then 1 else 0
        | Err _ => 0
        end%nat) /\
  (forall loc,
      Slonik.pools_created (Slonik.trace (Slonik.revertMigration env loc db))
      = (if existsSync env loc then 1 else 0)%nat /\
      Slonik.pools_ended (Slonik.trace (Slonik.revertMigration env loc db))
      = match Slonik.outcome (Slonik.revertMigration env loc db) with
        | Ok _ => if existsSync env loc then 1 else 0
        | Err _ => 0
        end%nat) /\
  (forall paths,
      Slonik.pools_created (Slonik.trace (Slonik.applyAllMigrations env paths db))
      = 1%nat /\
      Slonik.pools_ended (Slonik.trace (Slonik.applyAllMigrations env paths db))
      = match Slonik.outcome (Slonik.applyAllMigrations env paths db) with
        | Ok _ => 1
        | Err _ => 0
        end%nat).
Proof.
  assert (Hcount : forall A (r : result A) (t : list event),
             Slonik.pools_created (map Slonik.Stmt t ++ closing r) = 0%nat /\
             Slonik.pools_ended (map Slonik.Stmt t ++ closing r)
             = match r with Ok _ => 1 | Err _ => 0 end%nat).
  { intros A r t. destruct (pools_app (map Slonik.Stmt t) (closing r)) as [-> ->].
    destruct (pools_stmt t) as [-> ->]. now destruct r. }
  split; [|split].
  - intros loc. destruct (existsSync env loc) eqn:Hfile.
    + rewrite (slonik_applyMigration_exists env loc db Hfile).
      destruct (applyMigration env loc db) as [[r db'] t].
      unfold Slonik.outcome, Slonik.trace; simpl.
      destruct (Hcount _ r (tl t)) as [Hc He].
      unfold Slonik.pools_created, Slonik.pools_ended in *. simpl.
      rewrite Hc, He. now destruct r.
    + rewrite (slonik_applyMigration_missing env loc db Hfile). now split.
  - intros loc. destruct (existsSync env loc) eqn:Hfile.
    + rewrite (slonik_revertMigration_exists env loc db Hfile).
      destruct (revertMigration env loc db) as [[r db'] t].
      unfold Slonik.outcome, Slonik.trace; simpl.
      destruct (Hcount _ r (tl t)) as [Hc He].
      unfold Slonik.pools_created, Slonik.pools_ended in *. simpl.
      rewrite Hc, He. now destruct r.
    + rewrite (slonik_revertMigration_missing env loc db Hfile). now split.
  - intros paths.
    destruct (slonik_applyAllMigrations_shape env paths db) as (rest & _ & ->).
    unfold Slonik.outcome, Slonik.trace; simpl.
    destruct (Hcount _ (outcome (applyAllMigrations env paths db)) rest) as [Hc He].
    unfold Slonik.pools_created, Slonik.pools_ended in *. simpl.
    rewrite Hc, He. now destruct (outcome (applyAllMigrations env paths db)).
Qed.

End Variants.

(** ** Where discovery can fail *)

Section Failures.
Context {Sch : Type}.
Implicit Types (db : DB Sch) (env : Env Sch) (m : Migration).

(** An error of the discovery loop is the error glob raised for the first
    root it could not read. *)
Lemma collect_failure env paths acc db e db' t :
  collect env paths acc db = (Err e, db', t) ->
  exists before p rest filess,
    paths = (before ++ p :: rest)%list /\
    Forall2 (fun q files => glob env (q ++ "/*.js") = Ok files) before filess /\
    glob env (p ++ "/*.js") = Err e.
Proof.
  revert acc db t. induction paths as [|p rest IH]; intros acc db t H.
  - discriminate.
  - cbn [collect] in H. unfold bind at 1 in H. rewrite findMigrationsIn_run in H.
    destruct (glob env (p ++ "/*.js")) as [files|er] eqn:Hglob.
    + destruct (collect env rest _ db) as [[r2 db2] t2] eqn:Hrest.
      inversion H; subst.
      destruct (IH _ _ _ Hrest) as (before & q & after & filess & -> & Hall & Hq).
      exists (p :: before), q, after, (files :: filess).
      split; [reflexivity|]. split; [now constructor | exact Hq].
    + inversion H; subst. exists [], p, rest, [].
      split; [reflexivity|]. split; [constructor | exact Hglob].
Qed.

(** X20: discovery fails only through glob: when [findAllMigrations] raises,
    the error is the one glob raised for one of the roots, every root before
    that one was read, no root after it was looked at, and the database is as
    it was; deriving the descriptors and sorting them never fail. *)
Theorem findAllMigrations_fails_only_by_glob env paths db e :
  outcome (findAllMigrations env paths db) = Err e ->
  exists before p rest filess,
    paths = (before ++ p :: rest)%list /\
    Forall2 (fun q files => glob env (q ++ "/*.js") = Ok files) before filess /\
    glob env (p ++ "/*.js") = Err e /\
    findAllMigrations env paths db
    = (Err e, db, map pattern_of (before ++ [p])).
Proof.
  intros He.
  assert (Hc : exists db1 t1, collect env paths [] db = (Err e, db1, t1)).
  { unfold outcome, findAllMigrations, bind in He.
    destruct (collect env paths [] db) as [[[found|e1] db1] t1];
      simpl in He; [discriminate|].
    injection He as ->. now exists db1, t1. }
  destruct Hc as (db1 & t1 & Hc).
  destruct (collect_failure env paths [] db e db1 t1 Hc)
    as (before & p & rest & filess & -> & Hall & Hp).
  exists before, p, rest, filess.
  split; [reflexivity|]. split; [exact Hall|]. split; [exact Hp|].
  unfold findAllMigrations, bind.
  now rewrite (collect_stops env before p rest filess e [] db Hall Hp).
Qed.

End Failures.

(** ** The further properties at work *)

Lemma applyMigration_postcondition_witness :
  existsSync Example.fixed "/p1/10-create_users.js" = true /\
  applyMigration Example.fixed "/p1/10-create_users.js" Example.after10
  = (Ok VUndefined, Example.after10,
     [ExistsSync "/p1/10-create_users.js"; Select "10-create_users";
      Log "Run aborted. /p1/10-create_users.js has already been applied"]).
Proof.
  split; [reflexivity|].
  apply (applyMigration_postcondition Example.fixed "/p1/10-create_users.js"
           Example.after10 eq_refl).
  reflexivity.
Defined.

Lemma revertMigration_atomic_witness :
  existsSync Example.fixed "/p1/10-create_users.js" = true /\
  recorded Example.after10 "10-create_users" = true /\
  recorded (final (revertMigration Example.fixed "/p1/10-create_users.js" Example.after10))
    "10-create_users" = false.
Proof.
  split; [reflexivity|]. split; [reflexivity|].
  pose proof (revertMigration_atomic Example.fixed "/p1/10-create_users.js"
                Example.after10 eq_refl eq_refl) as H.
  assert (Ho : outcome (revertMigration Example.fixed "/p1/10-create_users.js"
                          Example.after10) = Ok VUndefined) by reflexivity.
  rewrite Ho in H. destruct H as (code & dbd & rows & _ & _ & _ & _ & Hrec & _).
  exact Hrec.
Defined.

Lemma apply_then_revert_restores_ledger_witness :
  units_keep_ledger Example.fixed /\
  recorded Example.after10 "20-add_email" = false /\
  migrations
    (final (revertMigration Example.fixed "/p2/20-add_email.js"
              (final (applyMigration Example.fixed "/p2/20-add_email.js" Example.after10))))
  = Some ["10-create_users"].
Proof.
  split; [exact fixed_keeps_ledger|]. split; [reflexivity|].
  exact (apply_then_revert_restores_ledger Example.fixed "/p2/20-add_email.js"
           Example.after10 ["10-create_users"]
           VUndefined
           (final (applyMigration Example.fixed "/p2/20-add_email.js" Example.after10))
           (trace (applyMigration Example.fixed "/p2/20-add_email.js" Example.after10))
           VUndefined
           (final (revertMigration Example.fixed "/p2/20-add_email.js"
                     (final (applyMigration Example.fixed "/p2/20-add_email.js"
                               Example.after10))))
           (trace (revertMigration Example.fixed "/p2/20-add_email.js"
                     (final (applyMigration Example.fixed "/p2/20-add_email.js"
                               Example.after10))))
           fixed_keeps_ledger eq_refl eq_refl eq_refl eq_refl).
Defined.

Lemma ledger_stays_unique_witness :
  units_keep_ledger Example.fixed /\
  NoDup (rows_of Example.after10) /\
  NoDup (rows_of (final (applyAllMigrations Example.fixed ["/p1"; "/p1"; "/p2"]
                           Example.after10))).
Proof.
  assert (Hnd : NoDup (rows_of Example.after10)).
  { repeat constructor. intros []. }
  split; [exact fixed_keeps_ledger|]. split; [exact Hnd|].
  apply (ledger_stays_unique Example.fixed Example.after10 fixed_keeps_ledger Hnd).
Defined.

Lemma applyAllMigrations_rows_added_witness :
  units_keep_ledger Example.broken /\
  exists added,
    migrations (final (applyAllMigrations Example.broken ["/p1"; "/p2"] Example.empty))
    = Some (rows_of Example.empty ++ added)%list /\
    List.length added
    = commits (trace (applyAllMigrations Example.broken ["/p1"; "/p2"] Example.empty)).
Proof.
  split; [exact broken_keeps_ledger|].
  exact (applyAllMigrations_rows_added Example.broken ["/p1"; "/p2"] Example.empty
           broken_keeps_ledger).
Defined.

Lemma applyAllMigrations_at_most_once_witness :
  units_keep_ledger Example.fixed /\
  ups (trace (applyAllMigrations Example.fixed ["/p1"; "/p2"; "/p1"] Example.after10))
  = ["/p2/20-add_email.js"; "/p1/30-add_index.js"] /\
  NoDup (ups (trace (applyAllMigrations Example.fixed ["/p1"; "/p2"; "/p1"]
                       Example.after10))).
Proof.
  split; [exact fixed_keeps_ledger|]. split; [reflexivity|].
  apply (applyAllMigrations_at_most_once Example.fixed ["/p1"; "/p2"; "/p1"]
           Example.after10 fixed_keeps_ledger).
Defined.

Lemma applyAllMigrations_leaves_nothing_pending_witness :
  units_keep_ledger Example.fixed /\
  Forall (fun m => recorded
                     (final (applyAllMigrations Example.fixed ["/p1"; "/p2"]
                               Example.empty)) (name m) = true)
    [Example.m10; Example.m20; Example.m30].
Proof.
  split; [exact fixed_keeps_ledger|].
  exact (applyAllMigrations_leaves_nothing_pending Example.fixed ["/p1"; "/p2"]
           Example.empty VUndefined
           (final (applyAllMigrations Example.fixed ["/p1"; "/p2"] Example.empty))
           (trace (applyAllMigrations Example.fixed ["/p1"; "/p2"] Example.empty))
           [Example.m10; Example.m20; Example.m30]
           fixed_keeps_ledger eq_refl eq_refl).
Defined.

Lemma findAllMigrations_complete_witness :
  Forall2 (fun p files => glob Example.fixed (p ++ "/*.js") = Ok files)
    ["/p2"; "/p3"; "/p2"] [Example.files2; Example.files3; Example.files2] /\
  exists ms,
    findAllMigrations Example.fixed ["/p2"; "/p3"; "/p2"] Example.fresh
    = (Ok ms, Example.fresh, map pattern_of ["/p2"; "/p3"; "/p2"]) /\
    Permutation ms
      (map migrationLocationToMigration
         (List.concat [Example.files2; Example.files3; Example.files2])) /\
    List.length ms
    = List.length (List.concat [Example.files2; Example.files3; Example.files2]).
Proof.
  assert (H : Forall2 (fun p files => glob Example.fixed (p ++ "/*.js") = Ok files)
                ["/p2"; "/p3"; "/p2"] [Example.files2; Example.files3; Example.files2]).
  { repeat constructor. }
  split; [exact H|].
  exact (findAllMigrations_complete Example.fixed _ _ Example.fresh H).
Defined.

Lemma findAllMigrations_fails_fast_witness :
  glob Desk.locked ("/p2" ++ "/*.js") = Err (GlobError "/p2/*.js") /\
  findAllMigrations Desk.locked (["/p1"] ++ "/p2" :: ["/p3"]) Example.fresh
  = (Err (GlobError "/p2/*.js"), Example.fresh, [Glob "/p1/*.js"; Glob "/p2/*.js"]) /\
  required (trace (applyAllMigrations Desk.locked (["/p1"] ++ "/p2" :: ["/p3"])
                     Example.fresh)) = [].
Proof.
  split; [reflexivity|].
  destruct (findAllMigrations_fails_fast Desk.locked ["/p1"] "/p2" ["/p3"]
              [Example.files1] (GlobError "/p2/*.js") Example.fresh)
    as (Hfind & _ & _ & Hnone).
  - repeat constructor.
  - reflexivity.
  - split; [exact Hfind | exact Hnone].
Defined.

Lemma applyAllMigrations_never_descends_witness :
  map order (map migrationLocationToMigration
               (List.concat [Example.files1; Example.files2; Example.files1]))
  = [Int 10; Int 30; Int 20; Int 10; Int 30] /\
  exists called sorted,
    outcome (findAllMigrations Example.fixed ["/p1"; "/p2"; "/p1"] Example.empty)
    = Ok sorted /\
    Permutation sorted
      (map migrationLocationToMigration
         (List.concat [Example.files1; Example.files2; Example.files1])) /\
    StronglySorted order_le sorted /\
    required (trace (applyAllMigrations Example.fixed ["/p1"; "/p2"; "/p1"]
                       Example.empty))
    = map location called /\
    subseq called sorted /\
    StronglySorted order_le called.
Proof.
  split; [reflexivity|].
  apply (applyAllMigrations_never_descends Example.fixed ["/p1"; "/p2"; "/p1"]
           [Example.files1; Example.files2; Example.files1] Example.empty).
  - repeat constructor.
  - repeat constructor.
Defined.

(** Past 2^53 an order key is the double nearest to the numeral: two
    numerals that differ can carry one key, and the batch then takes their
    files in the order discovery found them.  A numeral of 310 digits has an
    infinite key, and two such keys compare as equal. *)
Lemma order_keys_are_doubles :
  order (migrationLocationToMigration "/a/9007199254740993-second.js")
  = Int 9007199254740992 /\
  order (migrationLocationToMigration "/b/9007199254740992-first.js")
  = Int 9007199254740992 /\
  required (trace (applyAllMigrations Desk.late ["/a"; "/b"] Example.empty))
  = ["/a/9007199254740993-second.js"; "/b/9007199254740992-first.js"] /\
  required (trace (applyAllMigrations Desk.late ["/b"; "/a"] Example.empty))
  = ["/b/9007199254740992-first.js"; "/a/9007199254740993-second.js"] /\
  parseInt (decimal (10 ^ 309) ++ "-x") = Infinity false /\
  number_pos (number_sub (Infinity false) (Infinity false)) = false.
Proof. repeat split; vm_compute; reflexivity. Qed.

Lemma listMigrations_reports_witness :
  outcome (findAllMigrations Example.fixed ["/p1"; "/p2"] Example.after10)
  = Ok [Example.m10; Example.m20; Example.m30] /\
  listMigrations Example.fixed ["/p1"; "/p2"] Example.after10
  = (Ok VUndefined, Example.after10,
     [SelectExists; Glob "/p1/*.js"; Glob "/p2/*.js";
      Log "Applied Y/N     Path to migration";
      Select "10-create_users"; Log "Y               /p1/10-create_users.js";
      Select "20-add_email"; Log "N               /p2/20-add_email.js";
      Select "30-add_index"; Log "N               /p1/30-add_index.js";
      Log ""]).
Proof.
  split; [reflexivity|].
  apply (listMigrations_reports Example.fixed ["/p1"; "/p2"] Example.after10
           [Example.m10; Example.m20; Example.m30] eq_refl).
Defined.

Lemma listMigrations_after_batch_witness :
  units_keep_ledger Example.fixed /\
  listMigrations Example.fixed ["/p1"; "/p2"]
    (final (applyAllMigrations Example.fixed ["/p1"; "/p2"] Example.empty))
  = (Ok VUndefined,
     final (applyAllMigrations Example.fixed ["/p1"; "/p2"] Example.empty),
     [SelectExists; Glob "/p1/*.js"; Glob "/p2/*.js";
      Log "Applied Y/N     Path to migration";
      Select "10-create_users"; Log "Y               /p1/10-create_users.js";
      Select "20-add_email"; Log "Y               /p2/20-add_email.js";
      Select "30-add_index"; Log "Y               /p1/30-add_index.js";
      Log ""]).
Proof.
  split; [exact fixed_keeps_ledger|].
  exact (listMigrations_after_batch Example.fixed ["/p1"; "/p2"] Example.empty
           VUndefined
           (final (applyAllMigrations Example.fixed ["/p1"; "/p2"] Example.empty))
           (trace (applyAllMigrations Example.fixed ["/p1"; "/p2"] Example.empty))
           [Example.m10; Example.m20; Example.m30]
           fixed_keeps_ledger eq_refl eq_refl).
Defined.

Lemma createMigration_round_trip_witness :
  contains "/" "add_phone" = false /\
  migrationLocationToMigration "/p1/1700000000000-add_phone.js"
  = mkMigration (Int 1700000000000) "/p1/1700000000000-add_phone.js"
      "1700000000000-add_phone".
Proof.
  split; [reflexivity|].
  apply (createMigration_round_trip Desk.host "add_phone" "/p1" eq_refl eq_refl).
Defined.

Lemma cmd_without_database_witness :
  Cli.arg ["apply"; ""] 1 = None /\
  Cli.final (Cli.cmd Example.fixed Desk.host "node ./migrate.js" ["/p1"; "/p2"]
               ["apply"; ""] Example.after10)
  = Example.after10.
Proof.
  split; [reflexivity|].
  apply (cmd_without_database Example.fixed Desk.host "node ./migrate.js"
           ["/p1"; "/p2"] ["apply"; ""] Example.after10); reflexivity.
Defined.

Lemma findAllMigrations_fails_only_by_glob_witness :
  outcome (findAllMigrations Desk.locked ["/p1"; "/p2"; "/p3"] Example.fresh)
  = Err (GlobError "/p2/*.js") /\
  exists before p rest filess,
    ["/p1"; "/p2"; "/p3"] = (before ++ p :: rest)%list /\
    Forall2 (fun q files => glob Desk.locked (q ++ "/*.js") = Ok files)
      before filess /\
    glob Desk.locked (p ++ "/*.js") = Err (GlobError "/p2/*.js") /\
    findAllMigrations Desk.locked ["/p1"; "/p2"; "/p3"] Example.fresh
    = (Err (GlobError "/p2/*.js"), Example.fresh,
       map pattern_of (before ++ [p])).
Proof.
  split; [reflexivity|].
  exact (findAllMigrations_fails_only_by_glob Desk.locked ["/p1"; "/p2"; "/p3"]
           Example.fresh (GlobError "/p2/*.js") eq_refl).
Defined.
